(** * PerfX desktop: synchronized chart viewport (ChartList.tsx)

    A shallow embedding of [ChartList] / [ChartItem] from
    [apps/desktop/src/components/charts/ChartList.tsx]: the shared brush
    (a percentage window), the percentage/index windowing, the data buffer
    that freezes the displayed series while the brush is dragged, the
    per-line statistics and their formatting.

    JavaScript numbers are modelled as extended rationals: [NaN], the two
    infinities, and rationals for the finite values; the sign of zero is
    not part of the model.  The operators of [JS] are exact on finite
    values.  [Binary64] rounds every arithmetic result to the nearest
    binary64 number, as the engine does; the forward window, the
    statistics and the formatted scenario are stated over it, and the
    exact window is shown to be within one index of it.  [Render] adds the
    rule by which React decides when the effect that corrects the viewport
    runs. *)

From Stdlib Require Import ZArith QArith Qround Qabs Qpower Qreduction Qminmax.
From Stdlib Require Import Lia Lqa List Bool.
From Stdlib Require Import Ascii String DecimalString.
From stdpp Require Import base option list strings gmap.

Local Open Scope Z_scope.

(** ** JavaScript numbers and the built-ins the component calls *)

Module JS.

Inductive number : Type :=
| NaN
| Infinity
| NegInfinity
| Fin (q : Q).

Definition ofZ (z : Z) : number := Fin (inject_Z z).

(** Equality of numbers as values: finite ones are compared as rationals. *)
Definition num_eq (a b : number) : Prop :=
  match a, b with
  | NaN, NaN => True
  | Infinity, Infinity => True
  | NegInfinity, NegInfinity => True
  | Fin p, Fin q => (p == q)%Q
  | _, _ => False
  end.

Definition isNaN (a : number) : bool :=
  match a with NaN => true | _ => false end.

(** [Number.isFinite] on a number. *)
Definition isFinite (a : number) : bool :=
  match a with Fin _ => true | _ => false end.

(** The relational operators [<=] and [>=]: false as soon as one side is
    [NaN]. *)
Definition le (a b : number) : bool :=
  match a, b with
  | NaN, _ | _, NaN => false
  | NegInfinity, _ => true
  | _, Infinity => true
  | Fin p, Fin q => Qle_bool p q
  | _, _ => false
  end.

Definition ge (a b : number) : bool := le b a.

(** [a === b] and [a !== b] on numbers: [NaN] differs from everything. *)
Definition strict_eq (a b : number) : bool :=
  match a, b with
  | Infinity, Infinity => true
  | NegInfinity, NegInfinity => true
  | Fin p, Fin q => Qeq_bool p q
  | _, _ => false
  end.

Definition strict_ne (a b : number) : bool := negb (strict_eq a b).

(** Sign of a number, in {-1, 0, 1}; 0 for [NaN]. *)
Definition sgn (a : number) : Z :=
  match a with
  | NaN => 0
  | Infinity => 1
  | NegInfinity => -1
  | Fin q => Z.sgn (Qnum q)
  end.

Definition inf_of_sign (s : Z) : number :=
  match s with
  | Z0 => NaN
  | Zpos _ => Infinity
  | Zneg _ => NegInfinity
  end.

Definition add (a b : number) : number :=
  match a, b with
  | NaN, _ | _, NaN => NaN
  | Fin p, Fin q => Fin (p + q)
  | Infinity, NegInfinity | NegInfinity, Infinity => NaN
  | Infinity, _ | _, Infinity => Infinity
  | NegInfinity, _ | _, NegInfinity => NegInfinity
  end.

Definition mul (a b : number) : number :=
  match a, b with
  | NaN, _ | _, NaN => NaN
  | Fin p, Fin q => Fin (p * q)
  | _, _ => inf_of_sign (sgn a * sgn b)
  end.

(** Division; a zero divisor counts as [+0]. *)
Definition div (a b : number) : number :=
  match a, b with
  | NaN, _ | _, NaN => NaN
  | Fin p, Fin q => if Qeq_bool q 0 then inf_of_sign (sgn a) else Fin (p / q)
  | Fin _, _ => Fin 0
  | _, Fin q => inf_of_sign (sgn a * (if Qeq_bool q 0 then 1 else sgn b))
  | _, _ => NaN
  end.

(** [Math.max] / [Math.min] of two arguments, then of an argument list:
    the variadic built-ins start from [-Infinity] / [Infinity] and return
    [NaN] as soon as one argument is [NaN]. *)
Definition max2 (a b : number) : number :=
  match a, b with
  | NaN, _ | _, NaN => NaN
  | _, _ => if le a b then b else a
  end.

Definition min2 (a b : number) : number :=
  match a, b with
  | NaN, _ | _, NaN => NaN
  | _, _ => if le a b then a else b
  end.

Definition Math_max (args : list number) : number :=
  fold_left max2 args NegInfinity.

Definition Math_min (args : list number) : number :=
  fold_left min2 args Infinity.

Definition Math_abs (a : number) : number :=
  match a with
  | NaN => NaN
  | Infinity | NegInfinity => Infinity
  | Fin q => Fin (Qabs q)
  end.

(** [Math.round]: the nearest integer, halves towards [+Infinity]. *)
Definition Math_round (a : number) : number :=
  match a with
  | Fin q => ofZ (Qfloor (q + (1 # 2)))
  | _ => a
  end.

(** Truncation towards zero, the integer part used by
    [ToIntegerOrInfinity]. *)
Definition Qtrunc (q : Q) : Z := Z.quot (Qnum q) (Zpos (Qden q)).

(** The clamped position [Array.prototype.slice] derives from one of its
    arguments for an array of length [len]: [NaN] counts as 0, a negative
    integer part is taken from the end of the array. *)
Definition slice_bound (len : Z) (a : number) : Z :=
  match a with
  | NaN => 0
  | NegInfinity => 0
  | Infinity => len
  | Fin q =>
      let r := Qtrunc q in
      if r <? 0 then Z.max (len + r) 0 else Z.min r len
  end.

(** [arr.slice(from, to)]. *)
Definition slice {A : Type} (arr : list A) (from to : number) : list A :=
  let len := Z.of_nat (length arr) in
  let k := slice_bound len from in
  let final := slice_bound len to in
  take (Z.to_nat (final - k)) (drop (Z.to_nat k) arr).

(** *** [Number.prototype.toFixed] *)

Fixpoint zeros (n : nat) : string :=
  match n with
  | O => EmptyString
  | S n' => String "0" (zeros n')
  end.

(** Decimal digits of a natural number, ["0"] for zero. *)
Definition digits (n : Z) : string :=
  NilZero.string_of_uint (N.to_uint (Z.to_N n)).

(** The fixed-notation digits of a non-negative rational [x] with [f]
    fraction digits: the integer [n] nearest to [x * 10^f] (the larger one
    on a tie), written with a point before its last [f] digits. *)
Definition fixed_digits (f : nat) (x : Q) : string :=
  let n := Qfloor (x * inject_Z (10 ^ Z.of_nat f) + (1 # 2)) in
  let m := digits n in
  if Nat.eqb f 0 then m
  else
    let k := String.length m in
    let m := if (k <=? f)%nat then zeros (f + 1 - k) +:+ m else m in
    let k := String.length m in
    substring 0 (k - f) m +:+ "." +:+ substring (k - f) f m.

Section ToFixed.

(** From [10^21] on, [toFixed] returns the [Number::toString] rendering
    (exponent notation, shortest binary64 digits).  That rendering is a
    parameter here; [Binary64.NumberToString] implements it. *)
Variable NumberToString : Q -> string.

Definition toFixed (x : number) (fractionDigits : nat) : string :=
  match x with
  | NaN => "NaN"
  | Infinity => "Infinity"
  | NegInfinity => "-Infinity"
  | Fin q =>
      let s := if Qle_bool 0 q then "" else "-" in
      let x := Qabs q in
      let m :=
        if Qle_bool (inject_Z (10 ^ 21)) x then NumberToString x
        else fixed_digits fractionDigits x in
      s +:+ m
  end.

End ToFixed.

End JS.

(** ** The component *)

Module ChartList.
Import JS.

Record BrushState : Type := {
  start : number;   (* percentage 0-100 *)
  end_ : number;
}.

(** A value of type [number | string]. *)
Inductive value : Type :=
| VNum (n : number)
| VStr (s : string).

(** A sample is a [Record<string, number | string>]; [data] is an array
    of samples. *)
Abbreviation Sample := (gmap string value).
Abbreviation Data := (list (gmap string value)).

Record LineConfig : Type := {
  dataKey : string;
  label : string;
  color : string;
}.

Record IndexRange : Type := {
  startIndex : number;
  endIndex : number;
}.

(** [toIndex] inside [brushIndexRange]. *)
Definition toIndex (maxIndex pct : number) : number :=
  Math_max [ofZ 0; Math_min [maxIndex; Math_round (mul (div pct (ofZ 100)) maxIndex)]].

(** The [brushIndexRange] memo; it depends on [displayData] through its
    length only. *)
Definition brushIndexRange (brush : BrushState) (displayData_length : nat) : IndexRange :=
  let maxIndex := Math_max [ofZ (Z.of_nat displayData_length - 1); ofZ 0] in
  if le maxIndex (ofZ 0) then {| startIndex := ofZ 0; endIndex := ofZ 0 |}
  else {| startIndex := toIndex maxIndex (start brush);
          endIndex := toIndex maxIndex (end_ brush) |}.

(** The [visibleData] memo. *)
Definition visibleData (displayData : Data) (range : IndexRange) : Data :=
  if Nat.eqb (length displayData) 0 then displayData
  else
    let last := ofZ (Z.of_nat (length displayData) - 1) in
    let start := Math_max [ofZ 0; Math_min [last; startIndex range]] in
    let end_ := Math_max [start; Math_min [last; endIndex range]] in
    slice displayData start (add end_ (ofZ 1)).

(** [typeof v === "number" && Number.isFinite(v)] on the result of a
    property read ([None] is [undefined]). *)
Definition isFiniteNumber (v : option value) : bool :=
  match v with
  | Some (VNum n) => isFinite n
  | _ => false
  end.

(** The cast [as number[]] after the filter. *)
Definition asNumber (v : option value) : number :=
  match v with
  | Some (VNum n) => n
  | _ => NaN
  end.

Record Stat : Type := {
  key : string;
  stat_label : string;
  stat_color : string;
  max : option number;   (* [None] is [null] *)
  min : option number;
  avg : option number;
}.

Definition lineValues (line : LineConfig) (visible : Data) : list number :=
  map asNumber
    (List.filter isFiniteNumber (map (fun item : Sample => item !! dataKey line) visible)).

Definition lineStat (visible : Data) (line : LineConfig) : Stat :=
  let values := lineValues line visible in
  if Nat.eqb (length values) 0 then
    {| key := dataKey line; stat_label := label line; stat_color := color line;
       max := None; min := None; avg := None |}
  else
    {| key := dataKey line; stat_label := label line; stat_color := color line;
       max := Some (Math_max values);
       min := Some (Math_min values);
       avg := Some (div (fold_left add values (ofZ 0))
                        (ofZ (Z.of_nat (length values)))) |}.

(** The [stats] memo. *)
Definition stats (lines : list LineConfig) (visible : Data) : list Stat :=
  map (lineStat visible) lines.

Section FormatNumber.

Variable NumberToString : Q -> string.

Definition formatNumber (value : option number) : string :=
  match value with
  | None => "—"
  | Some v =>
      if isNaN v then "—"
      else if ge (Math_abs v) (ofZ 100) then toFixed NumberToString v 0
      else toFixed NumberToString v 1
  end.

End FormatNumber.

(** *** State: the [ChartList] context and one mounted [ChartItem] *)

(** The refs and state of a [ChartItem]. *)
Record ChartItemState : Type := {
  draggingRef : bool;
  dragTimerRef : option nat;       (* [None] is [null], else a timeout handle *)
  displayData : Data;
  pendingDataRef : option Data;    (* [None] is [null] *)
}.

(** The [ChartList] state shared through the context, one chart, and the
    timeouts that are scheduled and neither run nor cleared.  Handles are
    positive, hence truthy. *)
Record World : Type := {
  brush : BrushState;
  dragging : bool;
  chart : ChartItemState;
  timeouts : list nat;
  nextTimeout : nat;
}.

(** First render: [useState(initialBrush ?? { start: 0, end: 100 })],
    [useState(false)], [useRef(false)], [useRef(null)], [useState(data)]. *)
Definition mount (initialBrush : option BrushState) (data : Data) : World :=
  {| brush := default {| start := ofZ 0; end_ := ofZ 100 |} initialBrush;
     dragging := false;
     chart := {| draggingRef := false; dragTimerRef := None;
                 displayData := data; pendingDataRef := None |};
     timeouts := [];
     nextTimeout := 1 |}.

(** The effect on [[data]]: buffer while dragging, else display. *)
Definition dataEffect (data : Data) (w : World) : World :=
  let c := chart w in
  if draggingRef c then
    {| brush := brush w; dragging := dragging w;
       chart := {| draggingRef := draggingRef c; dragTimerRef := dragTimerRef c;
                   displayData := displayData c; pendingDataRef := Some data |};
       timeouts := timeouts w; nextTimeout := nextTimeout w |}
  else
    {| brush := brush w; dragging := dragging w;
       chart := {| draggingRef := draggingRef c; dragTimerRef := dragTimerRef c;
                   displayData := data; pendingDataRef := pendingDataRef c |};
       timeouts := timeouts w; nextTimeout := nextTimeout w |}.

(** [pctStart] and [pctEnd] of the effect that corrects the brush. *)
Definition pctStart (b : BrushState) : number :=
  Math_max [ofZ 0; Math_min [start b; ofZ 100]].

Definition pctEnd (b : BrushState) : number :=
  Math_max [pctStart b; Math_min [end_ b; ofZ 100]].

(** The body of that effect; [Some b] is the call [setBrush(b)], [None] a
    run that sets nothing.  React runs it after a render in which
    [brush.start], [brush.end] or [displayData.length] changed. *)
Definition clampBrush (draggingRef_current : bool) (displayData_length : nat)
    (b : BrushState) : option BrushState :=
  if draggingRef_current then None
  else
    let maxIndex := Math_max [ofZ (Z.of_nat displayData_length - 1); ofZ 0] in
    if le maxIndex (ofZ 0) then None
    else if strict_ne (pctStart b) (start b) || strict_ne (pctEnd b) (end_ b) then
      Some {| start := pctStart b; end_ := pctEnd b |}
    else None.

Definition brushEffect (w : World) : World :=
  match clampBrush (draggingRef (chart w)) (length (displayData (chart w))) (brush w) with
  | Some b =>
      {| brush := b; dragging := dragging w; chart := chart w;
         timeouts := timeouts w; nextTimeout := nextTimeout w |}
  | None => w
  end.

(** The argument of the brush's [onChange]:
    [{ startIndex?: number; endIndex?: number }]. *)
Record BrushChange : Type := {
  next_startIndex : option number;
  next_endIndex : option number;
}.

(** [toPct] inside [handleBrushChange]. *)
Definition toPct (maxIndex idx : number) : number :=
  Math_max [ofZ 0; Math_min [ofZ 100; mul (div idx maxIndex) (ofZ 100)]].

(** The percentages [handleBrushChange] passes to [setBrush]. *)
Definition brushOfIndices (displayData_length : nat) (s e : number) : BrushState :=
  let maxIndex := Math_max [ofZ (Z.of_nat displayData_length - 1); ofZ 1] in
  {| start := toPct maxIndex s; end_ := toPct maxIndex e |}.

Definition clearTimeout (h : nat) (scheduled : list nat) : list nat :=
  List.filter (fun h' => negb (Nat.eqb h' h)) scheduled.

Definition handleBrushChange (next : BrushChange) (w : World) : World :=
  match next_startIndex next, next_endIndex next with
  | Some s, Some e =>
      let c := chart w in
      let scheduled :=
        match dragTimerRef c with
        | Some h => clearTimeout h (timeouts w)
        | None => timeouts w
        end in
      let h := nextTimeout w in
      {| brush := brushOfIndices (length (displayData c)) s e;
         dragging := true;
         chart := {| draggingRef := true; dragTimerRef := Some h;
                     displayData := displayData c;
                     pendingDataRef := pendingDataRef c |};
         timeouts := h :: scheduled;
         nextTimeout := S h |}
  | _, _ => w
  end.

(** The callback given to [setTimeout(..., 150)]. *)
Definition settle (w : World) : World :=
  let c := chart w in
  {| brush := brush w;
     dragging := false;
     chart :=
       match pendingDataRef c with
       | Some pending =>
           {| draggingRef := false; dragTimerRef := dragTimerRef c;
              displayData := pending; pendingDataRef := None |}
       | None =>
           {| draggingRef := false; dragTimerRef := dragTimerRef c;
              displayData := displayData c; pendingDataRef := pendingDataRef c |}
       end;
     timeouts := timeouts w; nextTimeout := nextTimeout w |}.

(** A scheduled timeout elapses: it leaves the schedule and its callback
    runs.  A handle that was cleared does nothing. *)
Definition elapse (h : nat) (w : World) : World :=
  if existsb (Nat.eqb h) (timeouts w) then
    settle {| brush := brush w; dragging := dragging w; chart := chart w;
              timeouts := clearTimeout h (timeouts w);
              nextTimeout := nextTimeout w |}
  else w.

(** What can happen to a mounted chart. *)
Inductive Event : Type :=
| NewData (data : Data)          (* the [data] prop changes *)
| Drag (next : BrushChange)      (* the brush calls [onChange] *)
| Elapse (h : nat)               (* 150 ms have passed for handle [h] *)
| Correct.                       (* the brush-correcting effect runs *)

Definition step (w : World) (ev : Event) : World :=
  match ev with
  | NewData data => dataEffect data w
  | Drag next => handleBrushChange next w
  | Elapse h => elapse h w
  | Correct => brushEffect w
  end.

Definition run (evs : list Event) (w : World) : World := fold_left step evs w.

End ChartList.

(** ** Binary64 arithmetic

    The engine's numbers are the binary64 numbers: every arithmetic
    operator returns the exact result rounded to the nearest one, ties to
    the even significand, and [Infinity] where the rounded result reaches
    [2^1024].  The functions of the component that compute with [+], [*]
    and [/] are embedded a second time over these operators. *)

Module Binary64.
Import JS ChartList.

Definition pow2 (e : Z) : Q := (2 ^ e)%Q.

(** The integer [l] with [2^l <= a < 2^(l+1)], for [a > 0]. *)
Definition floorlog2 (a : Q) : Z :=
  let l := Z.log2 (Qnum a) - Z.log2 (Zpos (Qden a)) in
  if Qle_bool (pow2 l) a then l else l - 1.

(** The nearest integer, ties to even. *)
Definition roundHalfEven (x : Q) : Z :=
  let f := Qfloor x in
  match (x - inject_Z f ?= 1 # 2)%Q with
  | Lt => f
  | Gt => f + 1
  | Eq => if Z.even f then f else f + 1
  end.

(** The exponent of the last place of [a > 0]: 53 significant bits, and
    [2^-1074] for the subnormal numbers. *)
Definition exponent (a : Q) : Z := Z.max (floorlog2 a - 52) (-1074).

(** The multiple of [2^exponent] nearest to [a > 0]. *)
Definition nearest (a : Q) : Q :=
  (inject_Z (roundHalfEven (a / pow2 (exponent a))) * pow2 (exponent a))%Q.

Definition rnd64_pos (a : Q) : number :=
  let v := nearest a in
  if Qle_bool (pow2 1024) v then Infinity else Fin (Qred v).

Definition neg (a : number) : number :=
  match a with
  | NaN => NaN
  | Infinity => NegInfinity
  | NegInfinity => Infinity
  | Fin q => Fin (- q)
  end.

(** The binary64 number a rational rounds to. *)
Definition rnd64 (q : Q) : number :=
  match Qnum q with
  | Z0 => Fin 0
  | Zpos _ => rnd64_pos q
  | Zneg _ => neg (rnd64_pos (- q))
  end.

Definition round (a : number) : number :=
  match a with
  | Fin q => rnd64 q
  | _ => a
  end.

(** The operators [+], [*] and [/]. *)
Definition add (a b : number) : number := round (JS.add a b).
Definition mul (a b : number) : number := round (JS.mul a b).
Definition div (a b : number) : number := round (JS.div a b).

(** [toIndex] inside [brushIndexRange].  [Math.round] returns an integer
    that is a binary64 number whenever its argument is one. *)
Definition toIndex (maxIndex pct : number) : number :=
  Math_max [ofZ 0; Math_min [maxIndex; Math_round (mul (div pct (ofZ 100)) maxIndex)]].

(** The [brushIndexRange] memo. *)
Definition brushIndexRange (brush : BrushState) (displayData_length : nat) : IndexRange :=
  let maxIndex := Math_max [ofZ (Z.of_nat displayData_length - 1); ofZ 0] in
  if le maxIndex (ofZ 0) then {| startIndex := ofZ 0; endIndex := ofZ 0 |}
  else {| startIndex := toIndex maxIndex (start brush);
          endIndex := toIndex maxIndex (end_ brush) |}.

(** [toPct] inside [handleBrushChange]. *)
Definition toPct (maxIndex idx : number) : number :=
  Math_max [ofZ 0; Math_min [ofZ 100; mul (div idx maxIndex) (ofZ 100)]].

(** The percentages [handleBrushChange] passes to [setBrush]. *)
Definition brushOfIndices (displayData_length : nat) (s e : number) : BrushState :=
  let maxIndex := Math_max [ofZ (Z.of_nat displayData_length - 1); ofZ 1] in
  {| start := toPct maxIndex s; end_ := toPct maxIndex e |}.

Section Engine.

(** A call takes a bounded number of arguments: [Math.max(...values)]
    throws a [RangeError] when [values] has more elements than the engine
    accepts.  The bound depends on the engine. *)
Variable maxArguments : nat.

(** One element of the [stats] memo; [None] is the exception thrown by
    the spread call. *)
Definition lineStat (visible : Data) (line : LineConfig) : option Stat :=
  let values := lineValues line visible in
  if Nat.eqb (length values) 0 then
    Some {| key := dataKey line; stat_label := label line; stat_color := color line;
            max := None; min := None; avg := None |}
  else if (length values <=? maxArguments)%nat then
    Some {| key := dataKey line; stat_label := label line; stat_color := color line;
            max := Some (Math_max values);
            min := Some (Math_min values);
            avg := Some (div (fold_left add values (ofZ 0))
                             (ofZ (Z.of_nat (length values)))) |}
  else None.

(** The [stats] memo: [lines.map] stops at the first exception. *)
Definition stats (lines : list LineConfig) (visible : Data) : option (list Stat) :=
  mapM (lineStat visible) lines.

End Engine.

(** *** [Number::toString] *)

Definition pow10 (e : Z) : Q := (10 ^ e)%Q.

(** Does the decimal [s * 10^e] denote the binary64 number [x]? *)
Definition denotes (x : Q) (s e : Z) : bool :=
  match rnd64 (inject_Z s * pow10 e) with
  | Fin v => Qeq_bool v x
  | _ => false
  end.

(** The number [n] of integer digits of [x > 0], that is
    [10^(n-1) <= x < 10^n]. *)
Fixpoint scale_up (fuel : nat) (x : Q) (n : Z) : Z :=
  match fuel with
  | O => n
  | S fuel' => if Qle_bool 1 x then n else scale_up fuel' (x * 10) (n - 1)
  end.

Definition integer_digits (x : Q) : Z :=
  if Qle_bool 1 x then Z.of_nat (String.length (digits (Qfloor x)))
  else scale_up 400 (x * 10) 0.

(** The shortest digits of [x]: the least [k] with an integer [s] of [k]
    digits such that [s * 10^(n-k)] denotes [x], and of the two candidates
    the one nearer to [x].  Seventeen digits always suffice. *)
Fixpoint shortest (fuel : nat) (k n : Z) (x : Q) : Z * Z * Z :=
  let e := n - k in
  let lo := Qfloor (x / pow10 e) in
  let hi := lo + 1 in
  match fuel with
  | O => (lo, k, n)
  | S fuel' =>
      let nearer_lo :=
        Qle_bool (x - inject_Z lo * pow10 e) (inject_Z hi * pow10 e - x) in
      if denotes x lo e && (negb (denotes x hi e) || nearer_lo) then (lo, k, n)
      else if denotes x hi e then
        if hi =? 10 ^ k then (1, 1, n + 1) else (hi, k, n)
      else shortest fuel' (k + 1) n x
  end.

(** [Number::toString(x)] in radix 10 for a binary64 number [x > 0]:
    plain digits for [10^-6 <= x < 10^21], exponent notation otherwise. *)
Definition NumberToString_pos (x : Q) : string :=
  let '(s, k, n) := shortest 17 1 (integer_digits x) x in
  let ds := digits s in
  let k := Z.to_nat k in
  if (-5 <=? n) && (n <=? 21) then
    if Z.of_nat k <=? n then ds +:+ zeros (Z.to_nat n - k)
    else if 0 <? n then
      substring 0 (Z.to_nat n) ds +:+ "." +:+ substring (Z.to_nat n) (k - Z.to_nat n) ds
    else "0." +:+ zeros (Z.to_nat (- n)) +:+ ds
  else
    let e := n - 1 in
    let sign := if e <? 0 then "-" else "+" in
    let es := digits (Z.abs e) in
    if Nat.eqb k 1 then ds +:+ "e" +:+ sign +:+ es
    else substring 0 1 ds +:+ "." +:+ substring 1 (k - 1) ds +:+ "e" +:+ sign +:+ es.

Definition NumberToString (x : Q) : string :=
  match rnd64 x with
  | NaN => "NaN"
  | Infinity => "Infinity"
  | NegInfinity => "-Infinity"
  | Fin v =>
      if Qeq_bool v 0 then "0"
      else if Qle_bool 0 v then NumberToString_pos v
      else "-" +:+ NumberToString_pos (- v)
  end.

End Binary64.

(** ** When the effect that corrects the viewport runs

    [useEffect(..., [brush.start, brush.end, displayData.length, setBrush])]:
    React runs the effect after the first render, and after a render in
    which one of the dependencies is not the same value, by [Object.is], as
    in the render before.  [setBrush] never changes. *)

Module Render.
Import JS ChartList.

(** [Object.is] on numbers: it differs from [===] on [NaN]. *)
Definition Object_is (a b : number) : bool :=
  match a, b with
  | NaN, NaN => true
  | _, _ => strict_eq a b
  end.

Record Deps : Type := {
  dep_start : number;
  dep_end : number;
  dep_length : nat;
}.

Definition depsOf (w : World) : Deps :=
  {| dep_start := start (brush w); dep_end := end_ (brush w);
     dep_length := length (displayData (chart w)) |}.

Definition sameDeps (a b : Deps) : bool :=
  Object_is (dep_start a) (dep_start b) && Object_is (dep_end a) (dep_end b) &&
  Nat.eqb (dep_length a) (dep_length b).

(** A committed render: the state, and the dependencies of the render in
    which the effect was last considered. *)
Record Committed : Type := {
  state : World;
  lastDeps : Deps;
}.

(** A render is pending when the state's dependencies are not those of
    the last commit. *)
Definition settled (r : Committed) : bool := sameDeps (lastDeps r) (depsOf (state r)).

(** Committing a render whose dependencies changed runs the effect. *)
Definition commit (r : Committed) : Committed :=
  {| state := brushEffect (state r); lastDeps := depsOf (state r) |}.

(** A state set by the effect is rendered and committed in turn. *)
Fixpoint renders (fuel : nat) (r : Committed) : Committed :=
  if settled r then r
  else
    match fuel with
    | O => r
    | S fuel' => renders fuel' (commit r)
    end.

(** The first render runs the effect. *)
Definition firstRender (initialBrush : option BrushState) (data : Data) : Committed :=
  renders 2 (commit {| state := mount initialBrush data;
                       lastDeps := depsOf (mount initialBrush data) |}).

(** What a render follows: an event of the chart, or a write of the
    shared viewport by another consumer of the context, which calls the
    [setBrush] of [useChartList]. *)
Inductive Cause : Type :=
| Own (ev : Event)
| Shared (b : BrushState).

Definition perform (c : Cause) (w : World) : World :=
  match c with
  | Own ev => step w ev
  | Shared b =>
      {| brush := b; dragging := dragging w; chart := chart w;
         timeouts := timeouts w; nextTimeout := nextTimeout w |}
  end.

(** A cause changes the state; the renders it brings about follow.  Two
    commits settle every state. *)
Definition update (r : Committed) (c : Cause) : Committed :=
  renders 2 {| state := perform c (state r); lastDeps := lastDeps r |}.

Definition session (cs : list Cause) (r : Committed) : Committed :=
  fold_left update cs r.

End Render.

(** ** The specification's vocabulary *)

Module Spec.
Import JS ChartList.

(** [clamp(x, lo, hi)]. *)
Definition clamp (x lo hi : number) : number := Math_max [lo; Math_min [hi; x]].

(** The inverse direction as the specification words it:
    [pct(idx) = clamp(idx / max(seriesLength - 1, 1), 0, 1) * 100]. *)
Definition pct (seriesLength : nat) (idx : number) : number :=
  mul (clamp (div idx (Math_max [ofZ (Z.of_nat seriesLength - 1); ofZ 1]))
             (ofZ 0) (ofZ 1))
      (ofZ 100).

(** Both indices are integers of [[0, len - 1]], the first at most the
    second. *)
Definition ordered_indices (r : IndexRange) (len : nat) : Prop :=
  exists s e : Z,
    startIndex r = ofZ s /\ endIndex r = ofZ e /\
    0 <= s /\ s <= e /\ e <= Z.of_nat len - 1.

(** A viewport within [[0, 100]] with [start <= end]. *)
Definition valid_viewport (b : BrushState) : Prop :=
  le (ofZ 0) (start b) = true /\ le (start b) (end_ b) = true /\
  le (end_ b) (ofZ 100) = true.

(** The chart is interacting throughout a trace when no timeout elapses
    in it. *)
Definition is_elapse (ev : Event) : bool :=
  match ev with Elapse _ => true | _ => false end.

(** The most recent data arrival of a trace. *)
Definition lastData (evs : list Event) : option (list (gmap string value)) :=
  fold_left (fun acc ev => match ev with NewData d => Some d | _ => acc end) evs None.

(** At most one timeout is scheduled for a chart, the one it holds. *)
Definition one_timeout (w : World) : Prop :=
  timeouts w = [] \/ exists h, timeouts w = [h] /\ dragTimerRef (chart w) = Some h.

(** The finite numeric value a sample holds under [key], if any. *)
Definition finiteValue (key : string) (item : gmap string value) : option Q :=
  match item !! key with
  | Some (VNum (Fin q)) => Some q
  | _ => None
  end.

Definition finiteValues (key : string) (visible : list (gmap string value)) : list Q :=
  omap (finiteValue key) visible.

Definition Qsum (qs : list Q) : Q := fold_left Qplus qs 0%Q.

(** Number of characters after the decimal point, [None] without one. *)
Fixpoint decimals (s : string) : option nat :=
  match s with
  | EmptyString => None
  | String c rest =>
      if Ascii.eqb c "." then Some (String.length rest) else decimals rest
  end.

(** The percentage scaled to the index range, before rounding. *)
Definition scaled (q : Q) (m : Z) : Q := (q / inject_Z 100 * inject_Z m)%Q.

(** [toIndex] on a percentage that is not [NaN], as an integer. *)
Definition toIndexZ (m : Z) (pct : number) : Z :=
  match pct with
  | NaN | NegInfinity => 0
  | Infinity => m
  | Fin q => Z.max 0 (Z.min m (Qfloor (scaled q m + (1 # 2))))
  end.

(** The scenario of the specification. *)
Definition sample (t fps : Z) : gmap string value :=
  <["t" := VNum (ofZ t)]> (<["fps" := VNum (ofZ fps)]> ∅).

Definition scenarioData : list (gmap string value) :=
  [sample 0 10; sample 1 60; sample 2 30].

Definition fpsLine : LineConfig :=
  {| dataKey := "fps"; label := "FPS"; color := "red" |}.

Definition fullViewport : BrushState := {| start := ofZ 0; end_ := ofZ 100 |}.

(** A chart mounted over the scenario's series, then dragged. *)
Definition firstDrag : BrushChange :=
  {| next_startIndex := Some (ofZ 0); next_endIndex := Some (ofZ 1) |}.

Definition draggedChart : World :=
  handleBrushChange firstDrag (mount None scenarioData).

(** Two arrivals while it is dragged. *)
Definition arrivals : list Event :=
  [NewData [sample 3 40]; NewData [sample 3 40; sample 4 50]].


(** A chart mounted with a viewport that is out of range and inverted. *)
Definition strayViewport : BrushState := {| start := ofZ 150; end_ := ofZ (-20) |}.


(** An inverted index pair. *)
Definition invertedRange : IndexRange := {| startIndex := ofZ 2; endIndex := ofZ 0 |}.

(** The forward windowing function as the specification words it, with
    the arithmetic of the engine:
    [index(pct) = round(clamp(pct, 0, 100) / 100 * maxIndex)], clamped
    again into [[0, maxIndex]]. *)
Definition index64 (maxIndex pct : number) : number :=
  clamp (Math_round
           (Binary64.mul (Binary64.div (clamp pct (ofZ 0) (ofZ 100)) (ofZ 100)) maxIndex))
        (ofZ 0) maxIndex.

(** If [seriesLength <= 1] both indices are 0, otherwise
    [maxIndex = seriesLength - 1] and each index is [index] of its
    percentage. *)
Definition window64 (viewport : BrushState) (seriesLength : nat) : IndexRange :=
  if (seriesLength <=? 1)%nat then {| startIndex := ofZ 0; endIndex := ofZ 0 |}
  else
    let maxIndex := ofZ (Z.of_nat seriesLength - 1) in
    {| startIndex := index64 maxIndex (start viewport);
       endIndex := index64 maxIndex (end_ viewport) |}.

(** The percentage scaled to the index range in binary64, before it is
    rounded to an integer. *)
Definition scaled64 (m : Z) (pct : number) : number :=
  Binary64.mul (Binary64.div pct (ofZ 100)) (ofZ m).

(** The integer of [[0, m]] a scaled percentage rounds to. *)
Definition nearestIndex (m : Z) (x : number) : Z :=
  match x with
  | NaN | NegInfinity => 0
  | Infinity => m
  | Fin q => Z.max 0 (Z.min m (Qfloor (q + (1 # 2))))
  end.

(** A percentage that is not [NaN], brought back into [[0, 100]]. *)
Definition clampPct (x : number) : Q :=
  match x with
  | NaN => 0
  | Infinity => 100
  | NegInfinity => 0
  | Fin q => Qmax 0 (Qmin q 100)
  end.

(** The viewport [(start, end)] brought back into [[0, 100]] with
    [start <= end]: the end is raised to the start where it lies below. *)
Definition corrected (b b' : BrushState) : Prop :=
  num_eq (start b') (Fin (clampPct (start b))) /\
  num_eq (end_ b') (Fin (Qmax (clampPct (start b)) (clampPct (end_ b)))).





(** A drag that reports its indices in reverse, and the idle chart it
    leaves once its timeout has elapsed. *)
Definition reverseDrag : BrushChange :=
  {| next_startIndex := Some (ofZ 2); next_endIndex := Some (ofZ 0) |}.

Definition afterReverseDrag : Render.Committed :=
  Render.session [Render.Own (Drag reverseDrag); Render.Own (Elapse 1)]
    (Render.firstRender None scenarioData).

(** A chart that is dragged while another consumer writes a stray
    viewport, once its timeout has elapsed. *)
Definition afterStrayWrite : Render.Committed :=
  Render.session
    [Render.Own (Drag firstDrag); Render.Shared strayViewport; Render.Own (Elapse 1)]
    (Render.firstRender None scenarioData).

(** Other samples, as many as the scenario has; and one sample more. *)
Definition sameLengthData : list (gmap string value) :=
  [sample 0 20; sample 1 30; sample 2 40].

Definition longerData : list (gmap string value) :=
  [sample 0 10; sample 1 60; sample 2 30; sample 3 40].

(** A viewport whose start is [NaN]. *)
Definition nanViewport : BrushState := {| start := NaN; end_ := ofZ 50 |}.






(** The viewport of 26 samples from 58 percent on. *)
Definition tailViewport : BrushState := {| start := ofZ 58; end_ := ofZ 100 |}.

End Spec.

(** ** The chart's [config] object *)

Module ChartConfig.
Import JS ChartList.

Record ConfigEntry : Type := {
  entry_label : string;
  entry_color : string;
}.

(** [acc[line.dataKey] = { label, color }] on an object that started as
    [{}]: the own property is created or overwritten, except under the key
    ["__proto__"], where the assignment replaces the prototype and leaves
    the own properties alone.  The map holds the own properties. *)
Definition assign (acc : gmap string ConfigEntry) (line : LineConfig)
    : gmap string ConfigEntry :=
  if String.eqb (dataKey line) "__proto__" then acc
  else <[dataKey line := {| entry_label := label line; entry_color := color line |}]> acc.

(** The [config] memo: [lines.reduce(..., {})]. *)
Definition config (lines : list LineConfig) : gmap string ConfigEntry :=
  fold_left assign lines ∅.

(** The last line declared under a key, if any. *)
Definition lastLine (k : string) (lines : list LineConfig) : option LineConfig :=
  last (List.filter (fun line => String.eqb (dataKey line) k) lines).

Definition entryOf (line : LineConfig) : ConfigEntry :=
  {| entry_label := label line; entry_color := color line |}.

End ChartConfig.

(** ** [MetricSelector]: the selection of metrics *)

Module MetricSelector.

(** [MetricKey] of [types/adb]. *)
Inductive MetricKey : Type :=
| fps | cpu | power | memory | network | battery | battery_temp | traffic.

Definition MetricKey_eqb (a b : MetricKey) : bool :=
  match a, b with
  | fps, fps | cpu, cpu | power, power | memory, memory
  | network, network | battery, battery | battery_temp, battery_temp
  | traffic, traffic => true
  | _, _ => false
  end.

(** [value.includes(metric)]. *)
Definition includes (value : list MetricKey) (metric : MetricKey) : bool :=
  existsb (MetricKey_eqb metric) value.

(** [toggle]: the array handed to [onChange]. *)
Definition toggle (value : list MetricKey) (metric : MetricKey) : list MetricKey :=
  if includes value metric then
    List.filter (fun m => negb (MetricKey_eqb m metric)) value
  else value ++ [metric].

End MetricSelector.

(** ** [useUpdateCheck]: comparing versions *)

Module UpdateCheck.
Import JS.

(** [>] and [<] on numbers: false as soon as one side is [NaN]. *)
Definition gt (a b : number) : bool :=
  match a, b with
  | NaN, _ | _, NaN => false
  | _, _ => negb (le a b)
  end.

Definition lt (a b : number) : bool := gt b a.

(** [s.replace(/^v/i, "")]: a leading [v] or [V] is dropped. *)
Definition strip_v (s : string) : string :=
  match s with
  | String c rest =>
      if Ascii.eqb c "v" || Ascii.eqb c "V" then rest else s
  | EmptyString => s
  end.

(** [s.split(".")]; the result is never empty. *)
Fixpoint split_dot (s : string) : list string :=
  match s with
  | EmptyString => [EmptyString]
  | String c rest =>
      if Ascii.eqb c "." then EmptyString :: split_dot rest
      else
        match split_dot rest with
        | h :: t => String c h :: t
        | [] => [String c EmptyString]
        end
  end.

(** The comparison loop of [compareSemver] over the parsed segments, from
    index [i] for [remaining] rounds; [pa[i] ?? 0] reads 0 past the end. *)
Fixpoint compareFrom (pa pb : list number) (i remaining : nat) : Z :=
  match remaining with
  | O => 0
  | S remaining' =>
      let da := default (ofZ 0) (pa !! i) in
      let db := default (ofZ 0) (pb !! i) in
      if gt da db then 1
      else if lt da db then -1
      else compareFrom pa pb (S i) remaining'
  end.

Definition compareParts (pa pb : list number) : Z :=
  compareFrom pa pb 0 (Nat.max (length pa) (length pb)).

Section Builtins.

(** [String.prototype.trim] and [Number] applied to a string are
    built-ins; they stay parameters. *)
Variable trim : string -> string.
Variable StringToNumber : string -> number.

Definition normalizeVersion (v : string) : string := strip_v (trim v).

(** [Number(n) || 0]: [NaN] and zero are falsy. *)
Definition toSegment (n : string) : number :=
  let x := StringToNumber n in
  if isNaN x || strict_eq x (ofZ 0) then ofZ 0 else x.

Definition segments (v : string) : list number :=
  map toSegment (split_dot (normalizeVersion v)).

Definition compareSemver (a b : string) : Z :=
  compareParts (segments a) (segments b).

End Builtins.

End UpdateCheck.

(** ** Vocabulary of the further properties *)

Module More.
Import JS ChartList Spec.

(** A drag event that carries both indices, the only one that starts or
    prolongs an interaction. *)
Definition starts_drag (ev : Event) : bool :=
  match ev with
  | Drag next =>
      match next_startIndex next, next_endIndex next with
      | Some _, Some _ => true
      | _, _ => false
      end
  | _ => false
  end.

(** The statistics of a line over the samples a viewport shows. *)
Definition shownStat (b : BrushState) (d : list (gmap string value))
    (line : LineConfig) : Stat :=
  lineStat (visibleData d (brushIndexRange b (length d))) line.

(** An array of segments without [NaN]. *)
Definition no_NaN (pa : list number) : Prop := Forall (fun x => isNaN x = false) pa.

(** Examples the lemmas are instantiated at. *)
Definition idleTrace : list Event :=
  [NewData [sample 3 40];
   Drag {| next_startIndex := None; next_endIndex := Some (ofZ 1) |};
   NewData [sample 3 40; sample 4 50]].

Definition gestureTrace : list Event :=
  [NewData [sample 3 40];
   Drag {| next_startIndex := Some (ofZ 1); next_endIndex := Some (ofZ 2) |};
   NewData [sample 3 40; sample 4 50]].

Definition middleViewport : BrushState := {| start := ofZ 25; end_ := ofZ 75 |}.

Definition wideViewport : BrushState := {| start := ofZ (-10); end_ := Infinity |}.

Definition twoLines : list LineConfig :=
  [fpsLine; {| dataKey := "fps"; label := "Frames"; color := "blue" |}].

Definition selection : list MetricSelector.MetricKey :=
  [MetricSelector.fps; MetricSelector.cpu].

(** [Number] on a string of decimal digits; any other string counts as
    [NaN] here. *)
Definition parseDigits (s : string) : number :=
  match NilEmpty.uint_of_string s with
  | Some u => if String.eqb s "" then NaN else ofZ (Z.of_N (N.of_uint u))
  | None => NaN
  end.

End More.

(** ** Properties *)

Import JS ChartList Spec.

#[local] Arguments Qle_bool : simpl never.
#[local] Arguments Qeq_bool : simpl never.
#[local] Arguments Qpower : simpl never.

(** Case analysis on the rational comparisons a goal or a hypothesis
    runs into, each turned into the order fact it decides. *)
Ltac q_bool_step :=
  match goal with
  | H : context [Qle_bool ?a ?b] |- _ =>
      let E := fresh "Hle" in
      destruct (Qle_bool a b) eqn:E;
      [ apply Qle_bool_iff in E
      | apply not_true_iff_false in E; rewrite Qle_bool_iff in E ]
  | |- context [Qle_bool ?a ?b] =>
      let E := fresh "Hle" in
      destruct (Qle_bool a b) eqn:E;
      [ apply Qle_bool_iff in E
      | apply not_true_iff_false in E; rewrite Qle_bool_iff in E ]
  | H : context [Qeq_bool ?a ?b] |- _ =>
      let E := fresh "Heq" in
      destruct (Qeq_bool a b) eqn:E;
      [ apply Qeq_bool_iff in E | apply Qeq_bool_neq in E ]
  | |- context [Qeq_bool ?a ?b] =>
      let E := fresh "Heq" in
      destruct (Qeq_bool a b) eqn:E;
      [ apply Qeq_bool_iff in E | apply Qeq_bool_neq in E ]
  end.

Ltac q_consts :=
  change (inject_Z 100) with 100%Q in *; change (inject_Z 0) with 0%Q in *;
  change (inject_Z 1) with 1%Q in *.

Ltac q_bools :=
  cbn in *; repeat (q_bool_step; cbn in *; try (exfalso; q_consts; lra)).

Ltac q_done :=
  q_consts; first [ reflexivity | discriminate | lra | exfalso; lra ].

(** *** Numbers *)

Section Numbers.

Lemma max2_ofZ a b : max2 (ofZ a) (ofZ b) = ofZ (Z.max a b).
Proof.
  unfold max2, ofZ, le.
  destruct (Qle_bool (inject_Z a) (inject_Z b)) eqn:H.
  - apply Qle_bool_iff in H. rewrite <- Zle_Qle in H.
    rewrite Z.max_r by lia. reflexivity.
  - apply not_true_iff_false in H. rewrite Qle_bool_iff, <- Zle_Qle in H.
    rewrite Z.max_l by lia. reflexivity.
Qed.

Lemma min2_ofZ a b : min2 (ofZ a) (ofZ b) = ofZ (Z.min a b).
Proof.
  unfold min2, ofZ, le.
  destruct (Qle_bool (inject_Z a) (inject_Z b)) eqn:H.
  - apply Qle_bool_iff in H. rewrite <- Zle_Qle in H.
    rewrite Z.min_l by lia. reflexivity.
  - apply not_true_iff_false in H. rewrite Qle_bool_iff, <- Zle_Qle in H.
    rewrite Z.min_r by lia. reflexivity.
Qed.

Lemma Math_max_pair a b : Math_max [ofZ a; ofZ b] = ofZ (Z.max a b).
Proof. unfold Math_max. cbn [fold_left]. apply max2_ofZ. Qed.

Lemma le_ofZ a b : le (ofZ a) (ofZ b) = (a <=? b).
Proof.
  unfold le, ofZ.
  destruct (Z.leb_spec a b) as [Hab | Hab];
    destruct (Qle_bool (inject_Z a) (inject_Z b)) eqn:H; try reflexivity.
  - apply not_true_iff_false in H. rewrite Qle_bool_iff, <- Zle_Qle in H. lia.
  - apply Qle_bool_iff in H. rewrite <- Zle_Qle in H. lia.
Qed.

Lemma strict_eq_num_eq a b : strict_eq a b = true -> num_eq a b.
Proof.
  destruct a, b; cbn; try discriminate; try done.
  apply Qeq_bool_iff.
Qed.

Lemma div_Fin_ofZ q m : 1 <= m -> div (Fin q) (ofZ m) = Fin (q / inject_Z m).
Proof.
  intros Hm. unfold div, ofZ.
  destruct (Qeq_bool (inject_Z m) 0) eqn:H; [|done].
  apply Qeq_bool_iff in H. change 0%Q with (inject_Z 0) in H.
  apply (proj1 (inject_Z_injective m 0)) in H. lia.
Qed.

Lemma div_Infinity_ofZ m : 1 <= m -> div Infinity (ofZ m) = Infinity.
Proof. intros Hm. destruct m; try lia. reflexivity. Qed.

Lemma div_NegInfinity_ofZ m : 1 <= m -> div NegInfinity (ofZ m) = NegInfinity.
Proof. intros Hm. destruct m; try lia. reflexivity. Qed.

Lemma mul_Infinity_ofZ m : 1 <= m -> mul Infinity (ofZ m) = Infinity.
Proof. intros Hm. destruct m; try lia. reflexivity. Qed.

Lemma mul_NegInfinity_ofZ m : 1 <= m -> mul NegInfinity (ofZ m) = NegInfinity.
Proof. intros Hm. destruct m; try lia. reflexivity. Qed.

(** The floor of [x] is the integer [k] with [k <= x < k + 1]. *)
Lemma Qfloor_unique x k :
  (inject_Z k <= x)%Q -> (x < inject_Z (k + 1))%Q -> Qfloor x = k.
Proof.
  intros Hlo Hhi.
  pose proof (Qfloor_le x) as H1. pose proof (Qlt_floor x) as H2.
  assert (inject_Z (Qfloor x) < inject_Z (k + 1))%Q as H3 by lra.
  assert (inject_Z k < inject_Z (Qfloor x + 1))%Q as H4 by lra.
  rewrite <- Zlt_Qlt in H3, H4. lia.
Qed.

(** Rounding an integer gives it back. *)
Lemma Qfloor_half x k : (x == inject_Z k)%Q -> Qfloor (x + (1 # 2)) = k.
Proof.
  intros Hx. apply Qfloor_unique; rewrite ?inject_Z_plus; q_consts; lra.
Qed.

End Numbers.

(** *** Rounding to binary64 *)

Section Rounding.
Import Binary64.

Lemma pow2_pos e : (0 < pow2 e)%Q.
Proof. apply Qpower_0_lt. reflexivity. Qed.

Lemma pow2_le n m : n <= m -> (pow2 n <= pow2 m)%Q.
Proof. intros H. apply Qpower_le_compat_l; [exact H | discriminate]. Qed.

Lemma pow2_plus n m : (pow2 (n + m) == pow2 n * pow2 m)%Q.
Proof. apply Qpower_plus. discriminate. Qed.

Lemma pow2_Z n : 0 <= n -> (inject_Z (2 ^ n) == pow2 n)%Q.
Proof. intros H. apply Zpower_Qpower. exact H. Qed.

(** [floorlog2 a] is the integer [l] with [2^l <= a < 2^(l+1)]. *)
Lemma floorlog2_spec a :
  (0 < a)%Q -> (pow2 (floorlog2 a) <= a < pow2 (floorlog2 a + 1))%Q.
Proof.
  intros Ha. unfold floorlog2. destruct a as [n d]. cbn [Qnum Qden].
  assert (0 < n) as Hn by (unfold Qlt in Ha; cbn in Ha; lia).
  set (ln := Z.log2 n). set (ld := Z.log2 (Z.pos d)).
  destruct (Z.log2_spec n Hn) as [Hn1 Hn2]. fold ln in Hn1, Hn2.
  destruct (Z.log2_spec (Z.pos d) ltac:(lia)) as [Hd1 Hd2]. fold ld in Hd1, Hd2.
  assert (0 <= ln) as Hln by apply Z.log2_nonneg.
  assert (0 <= ld) as Hld by apply Z.log2_nonneg.
  rewrite Zle_Qle in Hn1, Hd1. rewrite Zlt_Qlt in Hn2, Hd2.
  unfold Z.succ in *.
  rewrite pow2_Z in Hn1, Hn2, Hd1, Hd2 by lia.
  pose proof (pow2_pos ld) as Pld. pose proof (pow2_pos (ln - ld)) as Pl.
  pose proof (pow2_plus (ln - ld) ld) as E1.
  replace (ln - ld + ld) with ln in E1 by lia.
  pose proof (pow2_plus (ln - ld + 1) ld) as E2.
  replace (ln - ld + 1 + ld) with (ln + 1) in E2 by lia.
  pose proof (pow2_plus (ln - ld - 1) (ld + 1)) as E3.
  replace (ln - ld - 1 + (ld + 1)) with ln in E3 by lia.
  pose proof (pow2_pos (ln - ld - 1)) as Pl1. pose proof (pow2_pos (ln - ld + 1)) as Pl2.
  assert (0 < inject_Z (Z.pos d))%Q as Pd by (rewrite <- (Zlt_Qlt 0); lia).
  assert (n # d == inject_Z n / inject_Z (Z.pos d))%Q as Ea by apply Qmake_Qdiv.
  assert (pow2 (ln - ld - 1) <= n # d)%Q as Hlo.
  { rewrite Ea. apply Qle_shift_div_l; [exact Pd |]. nra. }
  assert (n # d < pow2 (ln - ld + 1))%Q as Hhi.
  { rewrite Ea. apply Qlt_shift_div_r; [exact Pd |]. nra. }
  destruct (Qle_bool (pow2 (ln - ld)) (n # d)) eqn:Hb.
  - apply Qle_bool_iff in Hb. split; assumption.
  - apply not_true_iff_false in Hb. rewrite Qle_bool_iff in Hb.
    replace (ln - ld - 1 + 1) with (ln - ld) by lia. split; [exact Hlo | lra].
Qed.

Lemma floorlog2_mono a b : (0 < a)%Q -> (a <= b)%Q -> floorlog2 a <= floorlog2 b.
Proof.
  intros Ha Hab.
  destruct (floorlog2_spec a Ha) as [Ha1 _].
  destruct (floorlog2_spec b ltac:(lra)) as [_ Hb2].
  destruct (Z_le_gt_dec (floorlog2 a) (floorlog2 b)) as [H | H]; [exact H |].
  pose proof (pow2_le (floorlog2 b + 1) (floorlog2 a) ltac:(lia)). lra.
Qed.

(** [floorlog2] of a number of [[2^l, 2^(l+1))]. *)
Lemma floorlog2_unique a l :
  (pow2 l <= a)%Q -> (a < pow2 (l + 1))%Q -> floorlog2 a = l.
Proof.
  intros Hlo Hhi. pose proof (pow2_pos l) as Hp.
  destruct (floorlog2_spec a ltac:(lra)) as [H1 H2].
  destruct (Z_lt_le_dec (floorlog2 a) l) as [H | H].
  - pose proof (pow2_le (floorlog2 a + 1) l ltac:(lia)). lra.
  - destruct (Z_lt_le_dec l (floorlog2 a)) as [H' | H']; [| lia].
    pose proof (pow2_le (l + 1) (floorlog2 a) ltac:(lia)). lra.
Qed.

(** Rounding to the nearest integer, ties to even. *)
Lemma roundHalfEven_cases x :
  roundHalfEven x = Qfloor x \/ roundHalfEven x = Qfloor x + 1.
Proof.
  unfold roundHalfEven. destruct (_ ?= _)%Q; auto. destruct (Z.even _); auto.
Qed.

Lemma roundHalfEven_lb x k : (inject_Z k <= x)%Q -> k <= roundHalfEven x.
Proof.
  intros H. apply Qfloor_resp_le in H. rewrite Qfloor_Z in H.
  destruct (roundHalfEven_cases x); lia.
Qed.

Lemma roundHalfEven_Z x k : (x == inject_Z k)%Q -> roundHalfEven x = k.
Proof.
  intros H. unfold roundHalfEven.
  rewrite (Qfloor_comp _ _ H), Qfloor_Z.
  destruct (Qcompare_spec (x - inject_Z k) (1 # 2)) as [Hx | Hx | Hx];
    [exfalso; lra | reflexivity | exfalso; lra].
Qed.

Lemma roundHalfEven_ub x k : (x <= inject_Z k)%Q -> roundHalfEven x <= k.
Proof.
  intros H. pose proof (Qfloor_resp_le _ _ H) as Hf. rewrite Qfloor_Z in Hf.
  destruct (Z.eq_dec (Qfloor x) k) as [E | E].
  - rewrite (roundHalfEven_Z x k); [lia |].
    pose proof (Qfloor_le x) as H1. rewrite E in H1. lra.
  - destruct (roundHalfEven_cases x); lia.
Qed.

Lemma roundHalfEven_mono x y : (x <= y)%Q -> roundHalfEven x <= roundHalfEven y.
Proof.
  intros H. pose proof (Qfloor_resp_le _ _ H) as Hf.
  destruct (Z.eq_dec (Qfloor x) (Qfloor y)) as [E | E].
  - unfold roundHalfEven. rewrite <- E.
    destruct (Qcompare_spec (x - inject_Z (Qfloor x)) (1 # 2)) as [Hx | Hx | Hx];
      destruct (Qcompare_spec (y - inject_Z (Qfloor x)) (1 # 2)) as [Hy | Hy | Hy];
      try lia; try (exfalso; lra); destruct (Z.even (Qfloor x)); lia.
  - destruct (roundHalfEven_cases x), (roundHalfEven_cases y); lia.
Qed.


Lemma scaled_lt a e n : (a < pow2 (e + n))%Q -> (a / pow2 e < pow2 n)%Q.
Proof.
  intros H. apply Qlt_shift_div_r; [apply pow2_pos |].
  rewrite pow2_plus in H. lra.
Qed.

Lemma scaled_ge a e n : (pow2 (e + n) <= a)%Q -> (pow2 n <= a / pow2 e)%Q.
Proof.
  intros H. apply Qle_shift_div_l; [apply pow2_pos |].
  rewrite pow2_plus in H. lra.
Qed.

Lemma nearest_nonneg a : (0 < a)%Q -> (0 <= nearest a)%Q.
Proof.
  intros Ha. unfold nearest. pose proof (pow2_pos (exponent a)) as Hp.
  assert (0 <= roundHalfEven (a / pow2 (exponent a))) as Hm.
  { apply roundHalfEven_lb. apply Qle_shift_div_l; [exact Hp |]. change (inject_Z 0) with 0%Q. lra. }
  rewrite Zle_Qle in Hm. change (inject_Z 0) with 0%Q in Hm. nra.
Qed.

Lemma nearest_ub a :
  (0 < a)%Q -> (nearest a <= pow2 (exponent a + 53))%Q.
Proof.
  intros Ha. unfold nearest. set (e := exponent a).
  destruct (floorlog2_spec a Ha) as [_ Hhi].
  pose proof (pow2_le (floorlog2 a + 1) (e + 53) ltac:(unfold e, exponent; lia)) as Hle.
  assert (a / pow2 e <= inject_Z (2 ^ 53))%Q as Hx.
  { rewrite pow2_Z by lia. apply Qlt_le_weak, scaled_lt. lra. }
  apply roundHalfEven_ub in Hx. rewrite Zle_Qle, pow2_Z in Hx by lia.
  pose proof (pow2_pos e). rewrite pow2_plus. nra.
Qed.

Lemma nearest_lb a :
  (0 < a)%Q -> -1074 < exponent a -> (pow2 (exponent a + 52) <= nearest a)%Q.
Proof.
  intros Ha He. unfold nearest. set (e := exponent a) in *.
  destruct (floorlog2_spec a Ha) as [Hlo _].
  assert (floorlog2 a = e + 52) as Hl by (unfold e, exponent in *; lia).
  rewrite Hl in Hlo.
  assert (inject_Z (2 ^ 52) <= a / pow2 e)%Q as Hx.
  { rewrite pow2_Z by lia. by apply scaled_ge. }
  apply roundHalfEven_lb in Hx. rewrite Zle_Qle, pow2_Z in Hx by lia.
  pose proof (pow2_pos e). rewrite pow2_plus. nra.
Qed.

Lemma exponent_mono a b : (0 < a)%Q -> (a <= b)%Q -> exponent a <= exponent b.
Proof.
  intros Ha Hab. pose proof (floorlog2_mono a b Ha Hab). unfold exponent. lia.
Qed.

(** Rounding to nearest is monotone. *)
Lemma nearest_mono a b : (0 < a)%Q -> (a <= b)%Q -> (nearest a <= nearest b)%Q.
Proof.
  intros Ha Hab. pose proof (exponent_mono a b Ha Hab) as He.
  destruct (Z.eq_dec (exponent a) (exponent b)) as [E | E].
  - unfold nearest. rewrite E. pose proof (pow2_pos (exponent b)) as Hp.
    assert (a / pow2 (exponent b) <= b / pow2 (exponent b))%Q as Hx.
    { unfold Qdiv. apply Qmult_le_compat_r; [exact Hab |].
      apply Qlt_le_weak, Qinv_lt_0_compat, Hp. }
    apply roundHalfEven_mono in Hx. rewrite Zle_Qle in Hx. nra.
  - pose proof (nearest_ub a Ha) as Hu.
    pose proof (nearest_lb b ltac:(lra) ltac:(unfold exponent in *; lia)) as Hl.
    pose proof (pow2_le (exponent a + 53) (exponent b + 52) ltac:(lia)). lra.
Qed.


Lemma rnd64_pos_not_NaN a : isNaN (rnd64_pos a) = false.
Proof. unfold rnd64_pos. cbn zeta. by destruct (Qle_bool _ _). Qed.

Lemma rnd64_pos_mono a b :
  (0 < a)%Q -> (a <= b)%Q -> le (rnd64_pos a) (rnd64_pos b) = true.
Proof.
  intros Ha Hab. pose proof (nearest_mono a b Ha Hab) as H.
  unfold rnd64_pos. cbn zeta.
  destruct (Qle_bool (pow2 1024) (nearest a)) eqn:Oa;
    destruct (Qle_bool (pow2 1024) (nearest b)) eqn:Ob; try reflexivity.
  - apply Qle_bool_iff in Oa. apply not_true_iff_false in Ob.
    rewrite Qle_bool_iff in Ob. exfalso. lra.
  - cbn [le]. apply Qle_bool_iff. by rewrite !Qred_correct.
Qed.

Lemma rnd64_pos_nonneg a : (0 < a)%Q -> le (Fin 0) (rnd64_pos a) = true.
Proof.
  intros Ha. pose proof (nearest_nonneg a Ha) as H. unfold rnd64_pos. cbn zeta.
  destruct (Qle_bool _ _); [reflexivity |].
  cbn [le]. apply Qle_bool_iff. by rewrite Qred_correct.
Qed.

Lemma le_neg a b : le a b = true -> le (neg b) (neg a) = true.
Proof.
  destruct a as [| | |p], b as [| | |q]; cbn; try done.
  rewrite !Qle_bool_iff. lra.
Qed.

Lemma le_chain a b c : le a b = true -> le b c = true -> le a c = true.
Proof.
  destruct a as [| | |p], b as [| | |q], c as [| | |r]; cbn; try done.
  rewrite !Qle_bool_iff. lra.
Qed.

Lemma Qnum_pos q : match Qnum q with Z0 => q == 0 | Zpos _ => 0 < q | Zneg _ => q < 0 end%Q.
Proof. destruct q as [[| n | n] d]; unfold Qeq, Qlt; cbn; lia. Qed.

Lemma rnd64_not_NaN q : isNaN (rnd64 q) = false.
Proof.
  unfold rnd64. destruct (Qnum q); [done | apply rnd64_pos_not_NaN |].
  pose proof (rnd64_pos_not_NaN (- q)). by destruct (rnd64_pos (- q)).
Qed.

(** Binary64 rounding preserves the order. *)
Lemma rnd64_mono p q : (p <= q)%Q -> le (rnd64 p) (rnd64 q) = true.
Proof.
  intros Hpq. unfold rnd64.
  pose proof (Qnum_pos p) as Hp. pose proof (Qnum_pos q) as Hq.
  destruct (Qnum p), (Qnum q); try (exfalso; lra).
  - cbn. by apply Qle_bool_iff.
  - by apply rnd64_pos_nonneg.
  - by apply rnd64_pos_mono.
  - apply (le_neg (Fin 0)), rnd64_pos_nonneg. lra.
  - eapply le_chain; [apply (le_neg (Fin 0)), rnd64_pos_nonneg; lra |].
    apply rnd64_pos_nonneg. lra.
  - apply le_neg, rnd64_pos_mono; lra.
Qed.


Lemma Qred_inject_Z k : Qred (inject_Z k) = inject_Z k.
Proof.
  unfold Qred, inject_Z.
  pose proof (Z.ggcd_gcd k 1) as Hg. pose proof (Z.ggcd_correct_divisors k 1) as Hd.
  destruct (Z.ggcd k 1) as [g [aa bb]]. cbn [fst snd] in *.
  rewrite Z.gcd_1_r in Hg. subst g. destruct Hd as [Ha Hb].
  f_equal; [lia |]. replace bb with 1 by lia. reflexivity.
Qed.

Lemma nearest_Z q k :
  (q == inject_Z k)%Q -> 0 < k < 2 ^ 53 -> (nearest q == inject_Z k)%Q.
Proof.
  intros Hq Hk.
  assert (0 < q)%Q as Hpos by (rewrite Hq, <- (Zlt_Qlt 0); lia).
  set (l := Z.log2 k).
  destruct (Z.log2_spec k ltac:(lia)) as [Hl1 Hl2]. fold l in Hl1, Hl2.
  assert (0 <= l) as Hl0 by apply Z.log2_nonneg.
  assert (l < 53) as Hl53 by (apply Z.log2_lt_pow2; lia).
  assert (floorlog2 q = l) as Hfl.
  { apply floorlog2_unique; rewrite Hq, <- pow2_Z by lia;
      [rewrite <- Zle_Qle | rewrite <- Zlt_Qlt]; [exact Hl1 | exact Hl2]. }
  unfold nearest, exponent. rewrite Hfl. rewrite Z.max_l by lia.
  pose proof (pow2_plus (l - 52) (52 - l)) as Hp.
  replace (l - 52 + (52 - l)) with 0 in Hp by lia. change (pow2 0) with 1%Q in Hp.
  pose proof (pow2_pos (l - 52)) as Hp1.
  assert (q / pow2 (l - 52) == inject_Z (k * 2 ^ (52 - l)))%Q as Hx.
  { rewrite inject_Z_mult, pow2_Z by lia. rewrite Hq.
    apply Qeq_sym. apply Qle_antisym.
    - apply Qle_shift_div_l; [exact Hp1 |]. nra.
    - apply Qle_shift_div_r; [exact Hp1 |]. nra. }
  rewrite (roundHalfEven_Z _ _ Hx). rewrite inject_Z_mult, pow2_Z by lia. nra.
Qed.

Lemma rnd64_pos_Z q k :
  (q == inject_Z k)%Q -> 0 < k < 2 ^ 53 -> rnd64_pos q = ofZ k.
Proof.
  intros Hq Hk. pose proof (nearest_Z q k Hq Hk) as Hn. unfold rnd64_pos. cbn zeta.
  destruct (Qle_bool (pow2 1024) (nearest q)) eqn:Ho.
  - apply Qle_bool_iff in Ho. exfalso. rewrite Hn in Ho.
    rewrite <- pow2_Z, <- Zle_Qle in Ho by lia.
    assert (2 ^ 53 < 2 ^ 1024) by (apply Z.pow_lt_mono_r; lia). lia.
  - unfold ofZ. f_equal. rewrite (Qred_complete _ _ Hn). apply Qred_inject_Z.
Qed.

(** Integers below [2^53] in magnitude are binary64 numbers. *)
Lemma rnd64_exact q k :
  (q == inject_Z k)%Q -> - 2 ^ 53 < k < 2 ^ 53 -> rnd64 q = ofZ k.
Proof.
  intros Hq Hk. unfold rnd64. pose proof (Qnum_pos q) as Hs.
  destruct (Qnum q).
  - rewrite Hq in Hs. change 0%Q with (inject_Z 0) in Hs.
    apply (proj1 (inject_Z_injective k 0)) in Hs. by subst.
  - rewrite Hq, <- (Zlt_Qlt 0) in Hs. apply rnd64_pos_Z; [exact Hq | lia].
  - rewrite Hq in Hs. change 0%Q with (inject_Z 0) in Hs. rewrite <- Zlt_Qlt in Hs.
    rewrite (rnd64_pos_Z (- q) (- k)); [| rewrite Hq, inject_Z_opp; reflexivity | lia].
    unfold ofZ, neg, inject_Z, Qopp. cbn [Qnum Qden]. by rewrite Z.opp_involutive.
Qed.

End Rounding.

(** *** The windowing function, percentages to indices *)

Section Forward.

Lemma brushIndexRange_short b len :
  (len <= 1)%nat ->
  brushIndexRange b len = {| startIndex := ofZ 0; endIndex := ofZ 0 |}.
Proof.
  intros Hlen. unfold brushIndexRange. rewrite Math_max_pair, le_ofZ.
  destruct (Z.leb_spec (Z.max (Z.of_nat len - 1) 0) 0); [done | lia].
Qed.

Lemma brushIndexRange_long b len :
  (2 <= len)%nat ->
  brushIndexRange b len =
    {| startIndex := toIndex (ofZ (Z.of_nat len - 1)) (start b);
       endIndex := toIndex (ofZ (Z.of_nat len - 1)) (end_ b) |}.
Proof.
  intros Hlen. unfold brushIndexRange. rewrite Math_max_pair, le_ofZ.
  destruct (Z.leb_spec (Z.max (Z.of_nat len - 1) 0) 0); [lia |].
  by rewrite Z.max_l by lia.
Qed.

Lemma toIndex_Fin m q :
  toIndex (ofZ m) (Fin q) = ofZ (toIndexZ m (Fin q)).
Proof.
  unfold toIndex, Math_max, Math_min. cbn [fold_left].
  change (max2 NegInfinity (ofZ 0)) with (ofZ 0).
  change (min2 Infinity (ofZ m)) with (ofZ m).
  change (div (Fin q) (ofZ 100)) with (Fin (q / inject_Z 100)).
  cbn [mul ofZ Math_round]. fold (ofZ m). fold (scaled q m).
  fold (ofZ (Qfloor (scaled q m + (1 # 2)))).
  by rewrite min2_ofZ, max2_ofZ.
Qed.

(** A percentage that is not [NaN] maps to an integer index. *)
Lemma toIndex_ofZ m pct :
  1 <= m -> isNaN pct = false -> toIndex (ofZ m) pct = ofZ (toIndexZ m pct).
Proof.
  intros Hm Hnan. destruct pct as [| | |q]; try discriminate.
  - unfold toIndex, Math_max, Math_min. cbn [fold_left].
    change (div Infinity (ofZ 100)) with Infinity.
    rewrite mul_Infinity_ofZ by done.
    cbn [Math_round]. change (max2 NegInfinity (ofZ 0)) with (ofZ 0).
    change (min2 (min2 Infinity (ofZ m)) Infinity) with (ofZ m).
    rewrite max2_ofZ. cbn [toIndexZ]. f_equal. lia.
  - unfold toIndex, Math_max, Math_min. cbn [fold_left].
    change (div NegInfinity (ofZ 100)) with NegInfinity.
    rewrite mul_NegInfinity_ofZ by done. reflexivity.
  - apply toIndex_Fin.
Qed.

Lemma toIndexZ_range m pct : 0 <= m -> 0 <= toIndexZ m pct <= m.
Proof. intros Hm. destruct pct; cbn [toIndexZ]; lia. Qed.

Lemma scaled_mono p q m : 0 <= m -> (p <= q)%Q -> (scaled p m <= scaled q m)%Q.
Proof.
  intros Hm Hpq. unfold scaled. rewrite Zle_Qle in Hm.
  apply Qmult_le_compat_r; [|exact Hm].
  unfold Qdiv. apply Qmult_le_compat_r; [exact Hpq|]. discriminate.
Qed.

Lemma round_scaled_mono p q m :
  0 <= m -> (p <= q)%Q ->
  Qfloor (scaled p m + (1 # 2)) <= Qfloor (scaled q m + (1 # 2)).
Proof.
  intros Hm Hpq. apply Qfloor_resp_le.
  pose proof (scaled_mono p q m Hm Hpq). lra.
Qed.

(** The index grows with the percentage. *)
Lemma toIndexZ_mono m p q :
  0 <= m -> le p q = true -> toIndexZ m p <= toIndexZ m q.
Proof.
  intros Hm Hle. destruct p as [| | |p], q as [| | |q]; try discriminate;
    cbn [toIndexZ]; try lia.
  cbn [le] in Hle. apply Qle_bool_iff in Hle.
  pose proof (round_scaled_mono p q m Hm Hle). lia.
Qed.

Lemma scaled_0 q m : (q == 0)%Q -> (scaled q m == 0)%Q.
Proof. intros Hq. unfold scaled. rewrite Hq. q_consts. field. Qed.

Lemma scaled_100 q m : (q == 100)%Q -> (scaled q m == inject_Z m)%Q.
Proof. intros Hq. unfold scaled. rewrite Hq. q_consts. field. Qed.

(** Clamping a finite percentage into [[0, 100]]. *)
Lemma clamp_pct_cases (q : Q) :
  exists q', clamp (Fin q) (ofZ 0) (ofZ 100) = Fin q' /\
    ((q <= 0 /\ q' == 0) \/ (0 <= q <= 100 /\ q' = q) \/ (100 <= q /\ q' == 100))%Q.
Proof.
  unfold clamp, Math_max, Math_min. cbn [fold_left].
  change (max2 NegInfinity (ofZ 0)) with (ofZ 0).
  change (min2 Infinity (ofZ 100)) with (ofZ 100).
  unfold min2, max2, ofZ, le. q_consts.
  destruct (Qle_bool 100 q) eqn:H100.
  - apply Qle_bool_iff in H100. exists 100%Q. split; [reflexivity|].
    right; right. split; [lra | reflexivity].
  - apply not_true_iff_false in H100. rewrite Qle_bool_iff in H100.
    destruct (Qle_bool 0 q) eqn:H0.
    + apply Qle_bool_iff in H0. exists q. split; [reflexivity|].
      right; left. split; [lra | reflexivity].
    + apply not_true_iff_false in H0. rewrite Qle_bool_iff in H0.
      exists 0%Q. split; [reflexivity|]. left. split; [lra | reflexivity].
Qed.

(** Whatever the viewport, an index that is not [NaN] lies in
    [[0, max(len - 1, 0)]]. *)
Lemma brushIndexRange_bounds b len :
  isNaN (start b) = false -> isNaN (end_ b) = false ->
  exists s e : Z,
    brushIndexRange b len = {| startIndex := ofZ s; endIndex := ofZ e |} /\
    0 <= s <= Z.max (Z.of_nat len - 1) 0 /\ 0 <= e <= Z.max (Z.of_nat len - 1) 0.
Proof.
  intros Hs He. destruct (Nat.leb_spec len 1) as [Hlen | Hlen].
  - exists 0, 0. rewrite brushIndexRange_short by done. split; [done | lia].
  - exists (toIndexZ (Z.of_nat len - 1) (start b)), (toIndexZ (Z.of_nat len - 1) (end_ b)).
    rewrite brushIndexRange_long by lia. rewrite !toIndex_ofZ by (done || lia).
    pose proof (toIndexZ_range (Z.of_nat len - 1) (start b) ltac:(lia)).
    pose proof (toIndexZ_range (Z.of_nat len - 1) (end_ b) ltac:(lia)).
    split; [done | lia].
Qed.

End Forward.

(** *** The windowing function in binary64 *)

Section Forward64.

Lemma round_not_NaN a : isNaN a = false -> isNaN (Binary64.round a) = false.
Proof. destruct a; try done. intros _. apply rnd64_not_NaN. Qed.

Lemma le_NegInfinity a : isNaN a = false -> le NegInfinity a = true.
Proof. by destruct a. Qed.

Lemma le_Infinity a : isNaN a = false -> le a Infinity = true.
Proof. by destruct a. Qed.

(** Rounding the result of an operator preserves the order. *)
Lemma round_mono a b :
  le a b = true -> le (Binary64.round a) (Binary64.round b) = true.
Proof.
  destruct a as [| | |p], b as [| | |q]; try done; cbn [Binary64.round]; intros H.
  - apply le_NegInfinity, rnd64_not_NaN.
  - apply le_Infinity, rnd64_not_NaN.
  - apply rnd64_mono. by apply Qle_bool_iff.
Qed.

Lemma div100_mono p q :
  le p q = true -> le (Binary64.div p (ofZ 100)) (Binary64.div q (ofZ 100)) = true.
Proof.
  intros H. apply round_mono.
  destruct p as [| | |p], q as [| | |q]; try done.
  rewrite !div_Fin_ofZ by lia. cbn [le] in *. apply Qle_bool_iff in H.
  apply Qle_bool_iff. unfold Qdiv. apply Qmult_le_compat_r; [exact H | discriminate].
Qed.

Lemma mul_mono x y m :
  1 <= m -> le x y = true ->
  le (Binary64.mul x (ofZ m)) (Binary64.mul y (ofZ m)) = true.
Proof.
  intros Hm H. apply round_mono.
  destruct x as [| | |p], y as [| | |q]; try done;
    rewrite ?mul_Infinity_ofZ, ?mul_NegInfinity_ofZ by done; try done.
  cbn [JS.mul ofZ le] in *. apply Qle_bool_iff in H. apply Qle_bool_iff.
  apply Qmult_le_compat_r; [exact H |]. rewrite <- (Zle_Qle 0). lia.
Qed.

Lemma scaled64_mono m p q :
  1 <= m -> le p q = true -> le (scaled64 m p) (scaled64 m q) = true.
Proof. intros Hm H. by apply mul_mono, div100_mono. Qed.

Lemma scaled64_not_NaN m pct :
  1 <= m -> isNaN pct = false -> isNaN (scaled64 m pct) = false.
Proof.
  intros Hm H. pose proof (scaled64_mono m pct pct Hm) as Hle.
  assert (le pct pct = true) as Hrefl.
  { destruct pct; try done. cbn. apply Qle_bool_iff. lra. }
  specialize (Hle Hrefl). by destruct (scaled64 m pct).
Qed.

Lemma scaled64_Fin m q :
  scaled64 m (Fin q) =
    Binary64.round (JS.mul (Binary64.rnd64 (q / inject_Z 100)) (ofZ m)).
Proof. unfold scaled64, Binary64.mul, Binary64.div. by rewrite div_Fin_ofZ by lia. Qed.

Lemma scaled64_0 m q : (q == 0)%Q -> scaled64 m (Fin q) = ofZ 0.
Proof.
  intros Hq. rewrite scaled64_Fin.
  rewrite (rnd64_exact _ 0); [| rewrite Hq; reflexivity | lia].
  cbn [JS.mul ofZ Binary64.round]. apply rnd64_exact; [| lia].
  change (inject_Z 0) with 0%Q. lra.
Qed.

Lemma scaled64_100 m q :
  - 2 ^ 53 < m < 2 ^ 53 -> (q == 100)%Q -> scaled64 m (Fin q) = ofZ m.
Proof.
  intros Hm Hq. rewrite scaled64_Fin.
  rewrite (rnd64_exact _ 1); [| rewrite Hq; reflexivity | lia].
  cbn [JS.mul ofZ Binary64.round]. apply rnd64_exact; [| exact Hm].
  change (inject_Z 1) with 1%Q. lra.
Qed.

Lemma nearestIndex_range m x : 0 <= m -> 0 <= nearestIndex m x <= m.
Proof. intros Hm. destruct x; cbn [nearestIndex]; lia. Qed.

Lemma nearestIndex_mono m x y :
  0 <= m -> le x y = true -> nearestIndex m x <= nearestIndex m y.
Proof.
  intros Hm H. destruct x as [| | |p], y as [| | |q]; try done; cbn [nearestIndex]; try lia.
  cbn [le] in H. apply Qle_bool_iff in H.
  assert (Qfloor (p + (1 # 2)) <= Qfloor (q + (1 # 2))) by (apply Qfloor_resp_le; lra).
  lia.
Qed.

Lemma nearestIndex_ofZ m k : nearestIndex m (ofZ k) = Z.max 0 (Z.min m k).
Proof. cbn [nearestIndex ofZ]. by rewrite (Qfloor_half _ k). Qed.

(** [Math.max(0, Math.min(maxIndex, Math.round(x)))]. *)
Lemma clamp_round m x :
  0 <= m -> isNaN x = false ->
  Math_max [ofZ 0; Math_min [ofZ m; Math_round x]] = ofZ (nearestIndex m x).
Proof.
  intros Hm Hx. unfold Math_max, Math_min. cbn [fold_left].
  change (max2 NegInfinity (ofZ 0)) with (ofZ 0).
  change (min2 Infinity (ofZ m)) with (ofZ m).
  destruct x as [| | |q]; try done; cbn [Math_round nearestIndex].
  - change (min2 (ofZ m) Infinity) with (ofZ m). rewrite max2_ofZ. f_equal. lia.
  - by rewrite min2_ofZ, max2_ofZ.
Qed.

Lemma toIndex64_ofZ m pct :
  1 <= m -> isNaN pct = false ->
  Binary64.toIndex (ofZ m) pct = ofZ (nearestIndex m (scaled64 m pct)).
Proof. intros Hm H. apply clamp_round; [lia |]. by apply scaled64_not_NaN. Qed.

Lemma brushIndexRange64_short b len :
  (len <= 1)%nat ->
  Binary64.brushIndexRange b len = {| startIndex := ofZ 0; endIndex := ofZ 0 |}.
Proof.
  intros Hlen. unfold Binary64.brushIndexRange. rewrite Math_max_pair, le_ofZ.
  destruct (Z.leb_spec (Z.max (Z.of_nat len - 1) 0) 0); [done | lia].
Qed.

Lemma brushIndexRange64_long b len :
  (2 <= len)%nat ->
  Binary64.brushIndexRange b len =
    {| startIndex := Binary64.toIndex (ofZ (Z.of_nat len - 1)) (start b);
       endIndex := Binary64.toIndex (ofZ (Z.of_nat len - 1)) (end_ b) |}.
Proof.
  intros Hlen. unfold Binary64.brushIndexRange. rewrite Math_max_pair, le_ofZ.
  destruct (Z.leb_spec (Z.max (Z.of_nat len - 1) 0) 0); [lia |].
  by rewrite Z.max_l by lia.
Qed.

(** The code rounds the raw percentage and clamps the index; clamping the
    percentage first, as the specification does, changes nothing: binary64
    rounding preserves the order and leaves 0, 1 and [maxIndex] as they
    are. *)
Lemma toIndex64_clamp m pct :
  1 <= m < 2 ^ 53 ->
  Binary64.toIndex (ofZ m) (clamp pct (ofZ 0) (ofZ 100)) = Binary64.toIndex (ofZ m) pct.
Proof.
  intros Hm. destruct pct as [| | |q].
  - reflexivity.
  - change (clamp Infinity (ofZ 0) (ofZ 100)) with (Fin 100).
    rewrite !toIndex64_ofZ by (done || lia).
    rewrite scaled64_100 by (lia || reflexivity). rewrite nearestIndex_ofZ.
    assert (le (ofZ m) (scaled64 m Infinity) = true) as H.
    { rewrite <- (scaled64_100 m 100) by (lia || reflexivity).
      apply scaled64_mono; [lia | reflexivity]. }
    apply (nearestIndex_mono m) in H; [| lia]. rewrite nearestIndex_ofZ in H.
    pose proof (nearestIndex_range m (scaled64 m Infinity) ltac:(lia)). f_equal. lia.
  - change (clamp NegInfinity (ofZ 0) (ofZ 100)) with (Fin 0).
    rewrite !toIndex64_ofZ by (done || lia).
    rewrite scaled64_0 by reflexivity. rewrite nearestIndex_ofZ.
    assert (le (scaled64 m NegInfinity) (ofZ 0) = true) as H.
    { rewrite <- (scaled64_0 m 0) by reflexivity.
      apply scaled64_mono; [lia | reflexivity]. }
    apply (nearestIndex_mono m) in H; [| lia]. rewrite nearestIndex_ofZ in H.
    pose proof (nearestIndex_range m (scaled64 m NegInfinity) ltac:(lia)). f_equal. lia.
  - destruct (clamp_pct_cases q) as (q' & -> & Hq).
    rewrite !toIndex64_ofZ by (done || lia). f_equal.
    destruct Hq as [[Hq Hq'] | [[Hq Hq'] | [Hq Hq']]].
    + rewrite scaled64_0 by done. rewrite nearestIndex_ofZ.
      assert (le (scaled64 m (Fin q)) (ofZ 0) = true) as H.
      { rewrite <- (scaled64_0 m 0) by reflexivity.
        apply scaled64_mono; [lia |]. by apply Qle_bool_iff. }
      apply (nearestIndex_mono m) in H; [| lia]. rewrite nearestIndex_ofZ in H.
      pose proof (nearestIndex_range m (scaled64 m (Fin q)) ltac:(lia)). lia.
    + by subst.
    + rewrite scaled64_100 by (lia || done). rewrite nearestIndex_ofZ.
      assert (le (ofZ m) (scaled64 m (Fin q)) = true) as H.
      { rewrite <- (scaled64_100 m 100) by (lia || reflexivity).
        apply scaled64_mono; [lia |]. by apply Qle_bool_iff. }
      apply (nearestIndex_mono m) in H; [| lia]. rewrite nearestIndex_ofZ in H.
      pose proof (nearestIndex_range m (scaled64 m (Fin q)) ltac:(lia)). lia.
Qed.

(** The reading of [{start: 58, end: 100}] over 26 samples: [0.58 * 25] is
    [14.499999999999998] in binary64 and rounds to 14, where the exact
    product [14.5] rounds to 15. *)
Lemma tail_of_26_samples :
  Binary64.brushIndexRange tailViewport 26 = {| startIndex := ofZ 14; endIndex := ofZ 25 |} /\
  brushIndexRange tailViewport 26 = {| startIndex := ofZ 15; endIndex := ofZ 25 |}.
Proof. split; vm_compute; reflexivity. Qed.

(** C3, as stated, fails: the viewport [{start: 100, end: 0}] over three
    samples gives [startIndex = 2] and [endIndex = 0], no maximum is
    taken; over an empty series the indices are 0, outside the empty range
    [[0, -1]]; and a [NaN] percentage gives a [NaN] index. *)
Lemma inverted_viewport_inverts_indices :
  Binary64.brushIndexRange {| start := ofZ 100; end_ := ofZ 0 |} 3
    = {| startIndex := ofZ 2; endIndex := ofZ 0 |} /\
  ~ ordered_indices (Binary64.brushIndexRange {| start := ofZ 100; end_ := ofZ 0 |} 3) 3 /\
  ~ ordered_indices (Binary64.brushIndexRange fullViewport 0) 0 /\
  startIndex (Binary64.brushIndexRange nanViewport 3) = NaN /\
  ~ ordered_indices (Binary64.brushIndexRange nanViewport 3) 3.
Proof.
  split; [vm_compute; reflexivity |]. split; [| split; [| split]].
  - intros (s & e & Hs & He & _ & Hse & _).
    vm_compute in Hs, He. injection Hs as <-. injection He as <-. lia.
  - intros (s & e & _ & _ & Hs & Hse & He). cbn in He. lia.
  - vm_compute. reflexivity.
  - intros (s & e & Hs & _). vm_compute in Hs. discriminate.
Qed.

(** C3 (amended), index monotonicity: for a series of at least one sample
    and a viewport whose percentages are not [NaN], [brushIndexRange]
    returns two integers of [[0, len - 1]]; they are in the order of the
    percentages: [startIndex <= endIndex] when [start <= end], and
    [endIndex <= startIndex] when [end <= start]. *)
Theorem index_monotonicity b len :
  (1 <= len)%nat -> isNaN (start b) = false -> isNaN (end_ b) = false ->
  exists s e : Z,
    Binary64.brushIndexRange b len = {| startIndex := ofZ s; endIndex := ofZ e |} /\
    0 <= s <= Z.of_nat len - 1 /\ 0 <= e <= Z.of_nat len - 1 /\
    (le (start b) (end_ b) = true -> s <= e) /\
    (le (end_ b) (start b) = true -> e <= s).
Proof.
  intros Hlen Hs He.
  destruct (decide (len = 1%nat)) as [-> | Hne].
  - exists 0, 0. rewrite brushIndexRange64_short by lia. cbn. repeat split; lia.
  - rewrite brushIndexRange64_long by lia.
    set (m := Z.of_nat len - 1). assert (1 <= m) as Hm by lia.
    exists (nearestIndex m (scaled64 m (start b))), (nearestIndex m (scaled64 m (end_ b))).
    rewrite !toIndex64_ofZ by done.
    pose proof (nearestIndex_range m (scaled64 m (start b)) ltac:(lia)).
    pose proof (nearestIndex_range m (scaled64 m (end_ b)) ltac:(lia)).
    split; [reflexivity |]. split; [lia |]. split; [lia |].
    split; intros Hle; apply nearestIndex_mono; try lia; by apply scaled64_mono.
Qed.

Lemma index_monotonicity_witness :
  (1 <= 3)%nat /\ isNaN (start fullViewport) = false /\ isNaN (end_ fullViewport) = false /\
  exists s e : Z,
    Binary64.brushIndexRange fullViewport 3 = {| startIndex := ofZ s; endIndex := ofZ e |} /\
    0 <= s <= Z.of_nat 3 - 1 /\ 0 <= e <= Z.of_nat 3 - 1 /\
    (le (start fullViewport) (end_ fullViewport) = true -> s <= e) /\
    (le (end_ fullViewport) (start fullViewport) = true -> e <= s).
Proof.
  split; [lia |]. split; [reflexivity |]. split; [reflexivity |].
  apply (index_monotonicity fullViewport 3); [lia | reflexivity | reflexivity].
Defined.

(** C4, the forward direction: with the arithmetic of the engine,
    [brushIndexRange] computes the windowing function of the
    specification, for every viewport ([NaN] and the infinities included)
    and every length up to [2^53], which covers every array.  Both indices
    are 0 for a length of at most 1; otherwise each is
    [round(clamp(pct, 0, 100) / 100 * maxIndex)] clamped into
    [[0, maxIndex]]. *)
Theorem windowing_forward b len :
  Z.of_nat len <= 2 ^ 53 -> Binary64.brushIndexRange b len = window64 b len.
Proof.
  intros Hbound. unfold window64. destruct (Nat.leb_spec len 1) as [Hle | Hgt].
  - by apply brushIndexRange64_short.
  - rewrite brushIndexRange64_long by lia. cbn zeta. unfold index64.
    change (clamp ?x (ofZ 0) ?m) with (Math_max [ofZ 0; Math_min [m; x]]).
    fold (Binary64.toIndex (ofZ (Z.of_nat len - 1)) (clamp (start b) (ofZ 0) (ofZ 100))).
    fold (Binary64.toIndex (ofZ (Z.of_nat len - 1)) (clamp (end_ b) (ofZ 0) (ofZ 100))).
    rewrite !toIndex64_clamp by lia. reflexivity.
Qed.

Lemma windowing_forward_witness :
  Z.of_nat 26 <= 2 ^ 53 /\
  Binary64.brushIndexRange tailViewport 26 = window64 tailViewport 26.
Proof. split; [lia | apply (windowing_forward tailViewport 26); lia]. Defined.

End Forward64.

(** *** The windowing function, indices to percentages *)

Section Inverse.









Lemma Qdiv_range i m :
  0 <= i <= m -> 1 <= m -> (0 <= inject_Z i / inject_Z m <= 1)%Q.
Proof.
  intros [Hi Him] Hm.
  assert (0 < inject_Z m)%Q as Hpos
    by (change 0%Q with (inject_Z 0); rewrite <- Zlt_Qlt; lia).
  split.
  - apply Qle_shift_div_l; [done|]. rewrite Qmult_0_l.
    change 0%Q with (inject_Z 0). rewrite <- Zle_Qle. lia.
  - apply Qle_shift_div_r; [done|]. rewrite Qmult_1_l. rewrite <- Zle_Qle. lia.
Qed.


(** The tolerance of the round trip: a percentage whose scaled value is
    within one half of the index [i] still maps to [i] or [i + 1]. *)
Lemma toIndex_near m i p :
  0 <= i <= m -> (Qabs (scaled p m - inject_Z i) <= 1 # 2)%Q ->
  Z.abs (toIndexZ m (Fin p) - i) <= 1.
Proof.
  intros Hi Hp. apply Qabs_Qle_condition in Hp. destruct Hp as [Hlo Hhi].
  cbn [toIndexZ]. set (x := (scaled p m + (1 # 2))%Q).
  assert (i <= Qfloor x) as Hfloor_lo.
  { pose proof (Qfloor_resp_le (inject_Z i) x ltac:(unfold x; lra)) as Hr.
    by rewrite Qfloor_Z in Hr. }
  assert (Qfloor x <= i + 1) as Hfloor_hi.
  { pose proof (Qfloor_resp_le x (inject_Z (i + 1))
                  ltac:(unfold x; rewrite inject_Z_plus; q_consts; lra)) as Hr.
    by rewrite Qfloor_Z in Hr. }
  lia.
Qed.



End Inverse.

(** *** The effect that corrects the viewport *)

Section SelfCorrection.

Lemma clampBrush_unfold len b :
  (2 <= len)%nat ->
  clampBrush false len b =
    if strict_ne (pctStart b) (start b) || strict_ne (pctEnd b) (end_ b)
    then Some {| start := pctStart b; end_ := pctEnd b |} else None.
Proof.
  intros Hlen. unfold clampBrush. rewrite Math_max_pair, le_ofZ.
  destruct (Z.leb_spec (Z.max (Z.of_nat len - 1) 0) 0); [lia | reflexivity].
Qed.

(** The guard of the effect: nothing is corrected over at most one sample. *)
Lemma clampBrush_short dr len b : (len <= 1)%nat -> clampBrush dr len b = None.
Proof.
  intros Hlen. unfold clampBrush. destruct dr; [done |].
  rewrite Math_max_pair, le_ofZ.
  destruct (Z.leb_spec (Z.max (Z.of_nat len - 1) 0) 0); [done | lia].
Qed.

Lemma clampBrush_dragging len b : clampBrush true len b = None.
Proof. reflexivity. Qed.

Lemma clamped_valid b :
  isNaN (start b) = false -> isNaN (end_ b) = false ->
  valid_viewport {| start := pctStart b; end_ := pctEnd b |}.
Proof.
  destruct b as [[| | |s] [| | |e]]; intros; try discriminate.
  all: unfold valid_viewport, pctEnd, pctStart, Math_max, Math_min, max2, min2, le.
  all: q_bools; repeat split; q_done.
Qed.

Lemma valid_viewport_not_NaN b :
  valid_viewport b -> isNaN (start b) = false /\ isNaN (end_ b) = false.
Proof.
  destruct b as [[| | |s] [| | |e]]; intros (H1 & H2 & H3); cbn in *;
    try discriminate; done.
Qed.

Lemma clampBrush_None_iff len b :
  (2 <= len)%nat -> isNaN (start b) = false -> isNaN (end_ b) = false ->
  clampBrush false len b = None <-> valid_viewport b.
Proof.
  intros Hlen. rewrite clampBrush_unfold by done.
  destruct b as [[| | |s] [| | |e]]; intros; try discriminate.
  all: unfold valid_viewport, strict_ne, strict_eq, pctEnd, pctStart,
         Math_max, Math_min, max2, min2, le.
  all: q_bools; split; intros; destruct_and?; repeat split; q_done.
Qed.

Lemma brushEffect_clamps w :
  draggingRef (chart w) = false ->
  (2 <= length (displayData (chart w)))%nat ->
  isNaN (start (brush w)) = false -> isNaN (end_ (brush w)) = false ->
  valid_viewport (brush (brushEffect w)) /\
  num_eq (start (brush (brushEffect w))) (pctStart (brush w)) /\
  num_eq (end_ (brush (brushEffect w))) (pctEnd (brush w)) /\
  (clampBrush false (length (displayData (chart w))) (brush w) = None
     <-> valid_viewport (brush w)) /\
  brushEffect (brushEffect w) = brushEffect w /\
  chart (brushEffect w) = chart w /\ dragging (brushEffect w) = dragging w.
Proof.
  intros Hdrag Hlen Hs He.
  pose proof (clampBrush_None_iff _ _ Hlen Hs He) as Hiff.
  assert (forall v, brush v = brush w -> valid_viewport (brush w) -> chart v = chart w ->
                    brushEffect v = v) as Hstable.
  { intros v Hb Hvalid Hc. unfold brushEffect. rewrite Hb, Hc, Hdrag.
    by rewrite (proj2 Hiff Hvalid). }
  remember (brushEffect w) as w' eqn:Hw'. unfold brushEffect in Hw'.
  rewrite Hdrag in Hw'.
  destruct (clampBrush false _ (brush w)) as [b' |] eqn:Hclamp; subst w'.
  - rewrite clampBrush_unfold in Hclamp by done.
    destruct (_ || _); [|discriminate]. injection Hclamp as <-.
    cbn [brush chart dragging start end_].
    pose proof (clamped_valid _ Hs He) as Hvalid.
    destruct (valid_viewport_not_NaN _ Hvalid) as [Hs' He'].
    split; [exact Hvalid |].
    split; [destruct (pctStart (brush w)); try discriminate; cbn; done |].
    split; [destruct (pctEnd (brush w)); try discriminate; cbn; done |].
    split; [exact Hiff |].
    split; [| done].
    unfold brushEffect. cbn [brush chart dragging]. rewrite Hdrag.
    by rewrite (proj2 (clampBrush_None_iff _ _ Hlen Hs' He') Hvalid).
  - pose proof (proj1 Hiff eq_refl) as Hvalid.
    rewrite clampBrush_unfold in Hclamp by done.
    destruct (strict_ne (pctStart (brush w)) (start (brush w))) eqn:H1;
      [discriminate |].
    destruct (strict_ne (pctEnd (brush w)) (end_ (brush w))) eqn:H2;
      [discriminate |].
    unfold strict_ne in H1, H2. apply negb_false_iff in H1, H2.
    apply strict_eq_num_eq in H1, H2.
    split; [exact Hvalid |].
    split; [destruct (start (brush w)), (pctStart (brush w)); cbn in *; done |].
    split; [destruct (end_ (brush w)), (pctEnd (brush w)); cbn in *; done |].
    split; [exact Hiff |].
    split; [| done].
    by apply Hstable.
Qed.

Lemma brushEffect_short w :
  (length (displayData (chart w)) <= 1)%nat -> brushEffect w = w.
Proof. intros Hlen. unfold brushEffect. by rewrite clampBrush_short. Qed.

Lemma brushEffect_dragging w :
  draggingRef (chart w) = true -> brushEffect w = w.
Proof. intros Hdrag. unfold brushEffect. by rewrite Hdrag. Qed.

End SelfCorrection.

(** *** When the effect runs *)

(** Case analysis on the [Qmax] and [Qmin] of a goal. *)
Ltac q_minmax_step :=
  match goal with
  | |- context [Qmax ?a ?b] =>
      let m := fresh "m" in
      pose proof (Q.max_spec a b); set (m := Qmax a b) in *; clearbody m
  | |- context [Qmin ?a ?b] =>
      let m := fresh "m" in
      pose proof (Q.min_spec a b); set (m := Qmin a b) in *; clearbody m
  | H : context [Qmax ?a ?b] |- _ =>
      let m := fresh "m" in
      pose proof (Q.max_spec a b); set (m := Qmax a b) in *; clearbody m
  | H : context [Qmin ?a ?b] |- _ =>
      let m := fresh "m" in
      pose proof (Q.min_spec a b); set (m := Qmin a b) in *; clearbody m
  end.

Ltac q_minmax :=
  repeat q_minmax_step;
  repeat match goal with
         | H : _ \/ _ |- _ => destruct H
         | H : _ /\ _ |- _ => destruct H
         end;
  first [ lra | split; lra ].

Section Scheduling.

Lemma Object_is_refl a : Render.Object_is a a = true.
Proof. destruct a; try done. cbn. apply Qeq_bool_iff. reflexivity. Qed.

Lemma sameDeps_refl d : Render.sameDeps d d = true.
Proof.
  unfold Render.sameDeps. by rewrite !Object_is_refl, Nat.eqb_refl.
Qed.

(** [Object.is] is an equivalence: a value that is not the stored one is
    not the one the last commit saw either. *)
Lemma Object_is_other a b c :
  Render.Object_is c b = true -> Render.Object_is a b = false ->
  Render.Object_is c a = false.
Proof.
  destruct a as [| | |p], b as [| | |q], c as [| | |r]; cbn; try done.
  rewrite Qeq_bool_iff. intros H1 H2. apply Qeq_bool_neq in H2.
  apply not_true_iff_false. rewrite Qeq_bool_iff. intros H3. apply H2.
  by rewrite <- H3, H1.
Qed.

Lemma strict_eq_Object_is a b : strict_eq b a = true -> Render.Object_is a b = true.
Proof.
  destruct a as [| | |p], b as [| | |q]; cbn; try done.
  rewrite !Qeq_bool_iff. intros H. by rewrite H.
Qed.

(** A valid viewport is its own clamping. *)
Lemma valid_fixed b :
  valid_viewport b ->
  strict_eq (pctStart b) (start b) = true /\ strict_eq (pctEnd b) (end_ b) = true.
Proof.
  intros Hvalid. destruct (valid_viewport_not_NaN _ Hvalid) as [Hs He].
  pose proof (proj2 (clampBrush_None_iff 2 b ltac:(lia) Hs He) Hvalid) as Hnone.
  rewrite clampBrush_unfold in Hnone by lia.
  destruct (strict_ne (pctStart b) (start b)) eqn:H1; [discriminate |].
  destruct (strict_ne (pctEnd b) (end_ b)) eqn:H2; [discriminate |].
  unfold strict_ne in H1, H2. apply negb_false_iff in H1, H2. by split.
Qed.

Lemma clamp_idempotent_finite b :
  isNaN (start b) = false -> isNaN (end_ b) = false ->
  let b' := {| start := pctStart b; end_ := pctEnd b |} in
  Render.Object_is (pctStart b) (pctStart b') = true /\
  Render.Object_is (pctEnd b) (pctEnd b') = true.
Proof.
  intros Hs He. cbn zeta.
  destruct (valid_fixed _ (clamped_valid b Hs He)) as [H1 H2].
  split; apply strict_eq_Object_is; [exact H1 | exact H2].
Qed.

(** Clamping a clamped viewport gives the same values, [NaN] included. *)
Lemma clamp_idempotent b :
  let b' := {| start := pctStart b; end_ := pctEnd b |} in
  Render.Object_is (pctStart b) (pctStart b') = true /\
  Render.Object_is (pctEnd b) (pctEnd b') = true.
Proof.
  cbn zeta. destruct (isNaN (start b)) eqn:Hs.
  { destruct b as [[| | |s] e]; try discriminate. by split. }
  destruct (isNaN (end_ b)) eqn:He; [| by apply clamp_idempotent_finite].
  destruct b as [s [| | |e]]; try discriminate. cbn [start end_] in *.
  destruct (clamp_idempotent_finite {| start := s; end_ := ofZ 0 |} Hs eq_refl) as [H _].
  split; [exact H |].
  assert (pctEnd {| start := s; end_ := NaN |} = NaN) as ->.
  { unfold pctEnd, Math_max, Math_min. cbn [fold_left end_].
    by destruct (max2 NegInfinity _). }
  unfold pctEnd, Math_max, Math_min. cbn [fold_left end_].
  by destruct (max2 NegInfinity _).
Qed.

(** The effect sets the viewport to the clamped one or leaves the state
    as it is. *)
Lemma brushEffect_cases w :
  brushEffect w = w \/
  brushEffect w =
    {| brush := {| start := pctStart (brush w); end_ := pctEnd (brush w) |};
       dragging := dragging w; chart := chart w;
       timeouts := timeouts w; nextTimeout := nextTimeout w |}.
Proof.
  unfold brushEffect, clampBrush.
  destruct (draggingRef (chart w)); [by left |].
  destruct (le _ _); [by left |].
  destruct (_ || _); [by right | by left].
Qed.

(** After a commit, one more commit at most is pending. *)
Lemma commit_commit_settled r :
  Render.settled (Render.commit r) = false ->
  Render.settled (Render.commit (Render.commit r)) = true.
Proof.
  destruct r as [w d]. unfold Render.settled, Render.commit. cbn [Render.state Render.lastDeps].
  intros H1.
  destruct (brushEffect_cases w) as [E | E].
  { rewrite E, sameDeps_refl in H1. discriminate. }
  destruct (brushEffect_cases (brushEffect w)) as [E' | E'].
  { rewrite E'. apply sameDeps_refl. }
  rewrite E'. rewrite E. unfold Render.sameDeps, Render.depsOf.
  cbn [Render.dep_start Render.dep_end Render.dep_length brush chart start end_].
  destruct (clamp_idempotent (brush w)) as [-> ->]. by rewrite Nat.eqb_refl.
Qed.

(** Two commits settle every state. *)
Lemma renders_settled r : Render.settled (Render.renders 2 r) = true.
Proof.
  cbn [Render.renders].
  destruct (Render.settled r) eqn:H0; [exact H0 |].
  destruct (Render.settled (Render.commit r)) eqn:H1; [exact H1 |].
  rewrite commit_commit_settled by exact H1. by apply commit_commit_settled.
Qed.

(** More fuel changes nothing. *)
Lemma renders_enough fuel r : Render.renders (2 + fuel) r = Render.renders 2 r.
Proof.
  cbn [Render.renders Nat.add].
  destruct (Render.settled r) eqn:H0; [reflexivity |].
  destruct (Render.settled (Render.commit r)) eqn:H1; [reflexivity |].
  rewrite commit_commit_settled by exact H1.
  destruct fuel; cbn [Render.renders]; by rewrite commit_commit_settled.
Qed.

Lemma session_snoc evs ev r :
  Render.session (evs ++ [ev]) r = Render.update (Render.session evs r) ev.
Proof. unfold Render.session. by rewrite fold_left_app. Qed.

(** Every state of a session is settled. *)
Lemma session_settled initialBrush data evs :
  Render.settled (Render.session evs (Render.firstRender initialBrush data)) = true.
Proof.
  destruct evs as [| ev evs _] using rev_ind.
  - apply renders_settled.
  - rewrite session_snoc. apply renders_settled.
Qed.

Lemma max2_Fin p q : exists r, max2 (Fin p) (Fin q) = Fin r /\ (r == Qmax p q)%Q.
Proof.
  unfold max2, le. destruct (Qle_bool p q) eqn:H.
  - apply Qle_bool_iff in H. exists q. split; [done |]. by rewrite Q.max_r.
  - apply not_true_iff_false in H. rewrite Qle_bool_iff in H.
    exists p. split; [done |]. rewrite Q.max_l; [done | lra].
Qed.

Lemma min2_Fin p q : exists r, min2 (Fin p) (Fin q) = Fin r /\ (r == Qmin p q)%Q.
Proof.
  unfold min2, le. destruct (Qle_bool p q) eqn:H.
  - apply Qle_bool_iff in H. exists p. split; [done |]. by rewrite Q.min_l.
  - apply not_true_iff_false in H. rewrite Qle_bool_iff in H.
    exists q. split; [done |]. rewrite Q.min_r; [done | lra].
Qed.

(** [Math.min(x, 100)] and [Math.max(lo, Math.min(x, 100))] on numbers
    that are not [NaN]. *)
Lemma min_100 x :
  isNaN x = false ->
  Math_min [x; ofZ 100] = NegInfinity /\ x = NegInfinity \/
  x <> NegInfinity /\
  exists r, Math_min [x; ofZ 100] = Fin r /\ (r <= 100)%Q /\
    (r == Qmin (match x with Fin q => q | _ => 100 end) 100)%Q.
Proof.
  intros Hx. unfold Math_min. cbn [fold_left]. destruct x as [| | |q]; try done.
  - right. split; [done |]. exists 100%Q. split; [done |]. split; [lra | by rewrite Q.min_l].
  - by left.
  - right. split; [done |]. change (min2 Infinity (Fin q)) with (Fin q).
    change (ofZ 100) with (Fin (inject_Z 100)).
    destruct (min2_Fin q (inject_Z 100)) as (r & -> & Hr). exists r.
    split; [done |]. change (inject_Z 100) with 100%Q in Hr.
    split; [rewrite Hr; apply Q.le_min_r | exact Hr].
Qed.

(** What the effect computes is the viewport brought back into
    [[0, 100]], the end raised to the start. *)
Lemma pct_clampPct b :
  isNaN (start b) = false -> isNaN (end_ b) = false ->
  num_eq (pctStart b) (Fin (clampPct (start b))) /\
  num_eq (pctEnd b) (Fin (Qmax (clampPct (start b)) (clampPct (end_ b)))).
Proof.
  intros Hs He.
  assert (exists s', pctStart b = Fin s' /\ (s' == clampPct (start b))%Q /\ (0 <= s')%Q)
    as (s' & Es & Hs' & Hs0).
  { unfold pctStart, Math_max. cbn [fold_left].
    change (max2 NegInfinity (ofZ 0)) with (Fin 0).
    destruct (min_100 (start b) Hs) as [[-> Hx] | (Hx & r & -> & Hr100 & Hr)].
    - exists 0%Q. rewrite Hx. split; [done |]. split; [reflexivity | lra].
    - destruct (max2_Fin 0 r) as (m & -> & Hm). exists m. split; [done |].
      destruct (start b) as [| | |q]; try done; cbn [clampPct] in *; q_minmax. }
  split; [by rewrite Es |].
  unfold pctEnd, Math_max. cbn [fold_left]. rewrite Es.
  change (max2 NegInfinity (Fin s')) with (Fin s').
  destruct (min_100 (end_ b) He) as [[-> Hx] | (Hx & r & -> & Hr100 & Hr)].
  - rewrite Hx. change (max2 (Fin s') NegInfinity) with (Fin s').
    cbn [num_eq clampPct]. q_minmax.
  - destruct (max2_Fin s' r) as (m & -> & Hm). cbn [num_eq].
    destruct (end_ b) as [| | |q]; try done; cbn [clampPct] in *; q_minmax.
Qed.

Lemma brushEffect_chart w : chart (brushEffect w) = chart w.
Proof. by destruct (brushEffect_cases w) as [-> | ->]. Qed.

(** The renders that follow a cause leave the chart's own state alone. *)
Lemma renders_chart fuel r :
  chart (Render.state (Render.renders fuel r)) = chart (Render.state r).
Proof.
  revert r. induction fuel as [| fuel IH]; intros r; cbn [Render.renders];
    destruct (Render.settled r); try reflexivity.
  rewrite IH. apply brushEffect_chart.
Qed.

Lemma dataEffect_idle d w :
  draggingRef (chart w) = false ->
  brush (dataEffect d w) = brush w /\
  displayData (chart (dataEffect d w)) = d /\
  draggingRef (chart (dataEffect d w)) = false.
Proof. intros H. unfold dataEffect. by rewrite H. Qed.

(** A state whose dependencies are those of the last commit is rendered
    without running the effect. *)
Lemma update_settled r c :
  Render.sameDeps (Render.lastDeps r) (Render.depsOf (Render.perform c (Render.state r))) = true ->
  Render.state (Render.update r c) = Render.perform c (Render.state r).
Proof.
  intros H. unfold Render.update. cbn [Render.renders]. unfold Render.settled at 1.
  cbn [Render.state Render.lastDeps]. by rewrite H.
Qed.

(** A state with another dependency has the effect run, and run once more
    if it set the viewport. *)
Lemma update_pending r c :
  let w1 := Render.perform c (Render.state r) in
  Render.sameDeps (Render.lastDeps r) (Render.depsOf w1) = false ->
  brushEffect (brushEffect w1) = brushEffect w1 ->
  Render.state (Render.update r c) = brushEffect w1.
Proof.
  intros w1 Hpending Hidem. unfold Render.update. fold w1.
  cbn [Render.renders]. unfold Render.settled at 1.
  cbn [Render.state Render.lastDeps]. rewrite Hpending.
  set (r2 := Render.commit {| Render.state := w1; Render.lastDeps := Render.lastDeps r |}).
  assert (Render.state r2 = brushEffect w1) as Hr2 by reflexivity.
  destruct (Render.settled r2); [exact Hr2 |].
  assert (Render.state (Render.commit r2) = brushEffect w1) as Hr3.
  { unfold Render.commit at 1. cbn [Render.state]. by rewrite Hr2. }
  by destruct (Render.settled (Render.commit r2)).
Qed.

(** New data of the same length: no dependency changed. *)
Lemma same_length_settled r d :
  Render.settled r = true ->
  draggingRef (chart (Render.state r)) = false ->
  length d = length (displayData (chart (Render.state r))) ->
  Render.sameDeps (Render.lastDeps r)
    (Render.depsOf (Render.perform (Render.Own (NewData d)) (Render.state r))) = true.
Proof.
  intros Hset Hdrag Hlen. cbn [Render.perform step].
  destruct (dataEffect_idle d _ Hdrag) as (Hb & Hd & _).
  unfold Render.settled, Render.depsOf in *. by rewrite Hb, Hd, Hlen.
Qed.

(** New data of another length: a dependency changed. *)
Lemma other_length_pending r d :
  Render.settled r = true ->
  draggingRef (chart (Render.state r)) = false ->
  length d <> length (displayData (chart (Render.state r))) ->
  Render.sameDeps (Render.lastDeps r)
    (Render.depsOf (Render.perform (Render.Own (NewData d)) (Render.state r))) = false.
Proof.
  intros Hset Hdrag Hlen. cbn [Render.perform step].
  destruct (dataEffect_idle d _ Hdrag) as (Hb & Hd & _).
  unfold Render.settled, Render.sameDeps, Render.depsOf in *.
  cbn [Render.dep_length] in *.
  apply andb_true_iff in Hset as [_ Hl]. apply Nat.eqb_eq in Hl.
  rewrite Hd, Hl. apply andb_false_iff. right. apply Nat.eqb_neq. congruence.
Qed.

Lemma num_eq_trans a b c : num_eq a b -> num_eq b c -> num_eq a c.
Proof.
  destruct a, b, c; cbn; try done. intros H1 H2. by rewrite H1.
Qed.

(** What one run of the effect does to an idle chart over at least two
    samples, the viewport without [NaN]. *)
Lemma brushEffect_corrects w :
  draggingRef (chart w) = false -> (2 <= length (displayData (chart w)))%nat ->
  isNaN (start (brush w)) = false -> isNaN (end_ (brush w)) = false ->
  corrected (brush w) (brush (brushEffect w)) /\
  valid_viewport (brush (brushEffect w)) /\
  (valid_viewport (brush w) <-> brush (brushEffect w) = brush w) /\
  brushEffect (brushEffect w) = brushEffect w.
Proof.
  intros Hdrag Hlong Hs He.
  destruct (brushEffect_clamps w Hdrag Hlong Hs He)
    as (Hvalid & Hstart & Hend & Hiff & Hidem & _).
  destruct (pct_clampPct (brush w) Hs He) as [Hcs Hce].
  split; [split; eapply num_eq_trans; eassumption |].
  split; [exact Hvalid |]. split; [| exact Hidem].
  split.
  - intros Hv. apply Hiff in Hv. unfold brushEffect. by rewrite Hdrag, Hv.
  - intros E. by rewrite <- E.
Qed.

(** C6, as stated, fails.  A chart is dragged, another consumer writes the
    viewport [{start: 150, end: -20}] meanwhile, the timeout elapses: the
    chart is idle with that viewport.  New data of the same length arrives
    and is displayed, and the viewport stays as it is: the effect depends
    on the length, not on the data.  The same holds after a drag that
    reports its indices in reverse, which leaves [{start: 100, end: 0}].
    Over at most one sample nothing is corrected, although the length
    changed.  And a [NaN] start stays [NaN]. *)
Lemma stray_viewport_not_corrected :
  (let r := afterStrayWrite in
   let r' := Render.update r (Render.Own (NewData sameLengthData)) in
   draggingRef (chart (Render.state r)) = false /\
   dragging (Render.state r) = false /\
   displayData (chart (Render.state r')) = sameLengthData /\
   brush (Render.state r') = strayViewport /\
   ~ valid_viewport (brush (Render.state r'))) /\
  (let r := afterReverseDrag in
   let r' := Render.update r (Render.Own (NewData sameLengthData)) in
   draggingRef (chart (Render.state r)) = false /\
   dragging (Render.state r) = false /\
   displayData (chart (Render.state r')) = sameLengthData /\
   num_eq (start (brush (Render.state r'))) (ofZ 100) /\
   num_eq (end_ (brush (Render.state r'))) (ofZ 0) /\
   ~ valid_viewport (brush (Render.state r'))) /\
  (let r := Render.firstRender (Some strayViewport) [] in
   let r' := Render.update r (Render.Own (NewData [sample 0 10])) in
   displayData (chart (Render.state r')) = [sample 0 10] /\
   brush (Render.state r') = strayViewport /\
   ~ valid_viewport (brush (Render.state r'))) /\
  (let r := Render.firstRender (Some nanViewport) scenarioData in
   let r' := Render.update r (Render.Own (NewData longerData)) in
   displayData (chart (Render.state r')) = longerData /\
   start (brush (Render.state r')) = NaN /\
   ~ valid_viewport (brush (Render.state r'))).
Proof.
  cbn zeta. split; [| split; [| split]].
  - split; [vm_compute; reflexivity |]. split; [vm_compute; reflexivity |].
    split; [vm_compute; reflexivity |]. split; [vm_compute; reflexivity |].
    intros (_ & H & _). vm_compute in H. discriminate.
  - split; [vm_compute; reflexivity |]. split; [vm_compute; reflexivity |].
    split; [vm_compute; reflexivity |]. split; [vm_compute; reflexivity |].
    split; [vm_compute; reflexivity |].
    intros (_ & H & _). vm_compute in H. discriminate.
  - split; [vm_compute; reflexivity |]. split; [vm_compute; reflexivity |].
    intros (_ & H & _). vm_compute in H. discriminate.
  - split; [vm_compute; reflexivity |]. split; [vm_compute; reflexivity |].
    intros (H & _). vm_compute in H. discriminate.
Qed.

(** C6 (amended), viewport self-correction.  In any state a chart reaches
    from its first render, while it is not dragging, new data is displayed
    at once.  When its length is the length displayed before, or at most
    1, the viewport is left as it is.  When the length changes, to 2 or
    more, a viewport without [NaN] is brought back into [[0, 100]], its
    end raised to its start: the result is a valid viewport, it is the old
    one exactly when that was valid, and running the effect again changes
    nothing, no render is pending.  The same correction follows, over at
    least two samples, when another consumer writes a viewport whose start
    or end is not the stored one. *)
Theorem viewport_self_correction initialBrush data cs (d : list (gmap string value)) b :
  let r := Render.session cs (Render.firstRender initialBrush data) in
  let w := Render.state r in
  let r' := Render.update r (Render.Own (NewData d)) in
  let w' := Render.state r' in
  let r'' := Render.update r (Render.Shared b) in
  let w'' := Render.state r'' in
  draggingRef (chart w) = false ->
  displayData (chart w') = d /\
  (length d = length (displayData (chart w)) -> brush w' = brush w) /\
  ((length d <= 1)%nat -> brush w' = brush w) /\
  (length d <> length (displayData (chart w)) -> (2 <= length d)%nat ->
   isNaN (start (brush w)) = false -> isNaN (end_ (brush w)) = false ->
     corrected (brush w) (brush w') /\
     valid_viewport (brush w') /\
     (valid_viewport (brush w) <-> brush w' = brush w) /\
     brushEffect w' = w' /\
     Render.settled r' = true) /\
  (Render.Object_is (start b) (start (brush w)) &&
     Render.Object_is (end_ b) (end_ (brush w)) = false ->
   (2 <= length (displayData (chart w)))%nat ->
   isNaN (start b) = false -> isNaN (end_ b) = false ->
     corrected b (brush w'') /\
     valid_viewport (brush w'') /\
     (valid_viewport b <-> brush w'' = b) /\
     brushEffect w'' = w'' /\
     Render.settled r'' = true).
Proof.
  cbn zeta. intros Hdrag.
  set (r := Render.session cs (Render.firstRender initialBrush data)) in *.
  pose proof (session_settled initialBrush data cs) as Hset. fold r in Hset.
  destruct (dataEffect_idle d _ Hdrag) as (Hb & Hd & Hdrag1).
  set (w1 := dataEffect d (Render.state r)) in *.
  split; [| split; [| split; [| split]]].
  - unfold Render.update. rewrite renders_chart. exact Hd.
  - intros Hlen. by rewrite update_settled by (by apply same_length_settled).
  - intros Hlen.
    destruct (decide (length d = length (displayData (chart (Render.state r))))) as [E | E].
    + by rewrite update_settled by (by apply same_length_settled).
    + assert (brushEffect w1 = w1) as Hshort by (apply brushEffect_short; by rewrite Hd).
      rewrite update_pending; cbn [Render.perform step]; fold w1;
        [by rewrite Hshort | by apply other_length_pending | by rewrite !Hshort].
  - intros Hlen Hlong Hs He.
    rewrite <- Hb in Hs, He. rewrite <- Hd in Hlong.
    destruct (brushEffect_corrects w1 Hdrag1 Hlong Hs He) as (Hc & Hvalid & Hiff & Hidem).
    rewrite update_pending; cbn [Render.perform step]; fold w1;
      [| by apply other_length_pending | exact Hidem].
    rewrite <- Hb.
    split; [exact Hc |]. split; [exact Hvalid |]. split; [exact Hiff |].
    split; [exact Hidem | apply renders_settled].
  - intros Hnew Hlong Hs He.
    set (w2 := Render.perform (Render.Shared b) (Render.state r)).
    assert (Render.sameDeps (Render.lastDeps r) (Render.depsOf w2) = false) as Hpending.
    { unfold Render.settled, Render.sameDeps, Render.depsOf in *.
      cbn [Render.dep_start Render.dep_end Render.dep_length w2 Render.perform
             brush chart start end_] in *.
      apply andb_true_iff in Hset as [Hse Hl]. apply andb_true_iff in Hse as [Hls Hle].
      apply andb_false_iff. left.
      apply andb_false_iff in Hnew as [H | H]; apply andb_false_iff; [left | right].
      - eapply Object_is_other; eassumption.
      - eapply Object_is_other; eassumption. }
    destruct (brushEffect_corrects w2 Hdrag Hlong Hs He) as (Hc & Hvalid & Hiff & Hidem).
    rewrite update_pending; [| exact Hpending | exact Hidem].
    fold w2. change (brush w2) with b in Hc, Hiff.
    split; [exact Hc |]. split; [exact Hvalid |]. split; [exact Hiff |].
    split; [exact Hidem | apply renders_settled].
Qed.

Lemma viewport_self_correction_witness :
  draggingRef (chart (Render.state afterStrayWrite)) = false /\
  length longerData <> length (displayData (chart (Render.state afterStrayWrite))) /\
  (2 <= length longerData)%nat /\
  isNaN (start (brush (Render.state afterStrayWrite))) = false /\
  isNaN (end_ (brush (Render.state afterStrayWrite))) = false /\
  brush (Render.state afterStrayWrite) = strayViewport /\
  valid_viewport
    (brush (Render.state (Render.update afterStrayWrite (Render.Own (NewData longerData))))).
Proof.
  assert (draggingRef (chart (Render.state afterStrayWrite)) = false) as Hdrag
    by (vm_compute; reflexivity).
  assert (length longerData <> length (displayData (chart (Render.state afterStrayWrite))))
    as Hlen by (vm_compute; lia).
  assert (2 <= length longerData)%nat as Hlong by (vm_compute; lia).
  assert (isNaN (start (brush (Render.state afterStrayWrite))) = false) as Hs
    by (vm_compute; reflexivity).
  assert (isNaN (end_ (brush (Render.state afterStrayWrite))) = false) as He
    by (vm_compute; reflexivity).
  split; [exact Hdrag |]. split; [exact Hlen |]. split; [exact Hlong |].
  split; [exact Hs |]. split; [exact He |].
  split; [vm_compute; reflexivity |].
  destruct (viewport_self_correction None scenarioData
              [Render.Own (Drag firstDrag); Render.Shared strayViewport;
               Render.Own (Elapse 1%nat)]
              longerData fullViewport Hdrag) as (_ & _ & _ & Hcorrect & _).
  destruct (Hcorrect Hlen Hlong Hs He) as (_ & Hvalid & _).
  exact Hvalid.
Defined.

End Scheduling.

(** *** The data buffer and the interaction session *)

Section Session.

Lemma run_snoc evs ev w : run (evs ++ [ev]) w = step (run evs w) ev.
Proof. unfold run. by rewrite fold_left_app. Qed.

Lemma lastData_snoc evs ev :
  lastData (evs ++ [ev]) =
    match ev with NewData d => Some d | _ => lastData evs end.
Proof. unfold lastData. by rewrite fold_left_app. Qed.

(** One step of an interacting chart that is not a timeout: the chart
    keeps interacting and displaying what it displayed; only an arrival
    touches the pending buffer. *)
Lemma step_interacting w ev :
  draggingRef (chart w) = true -> is_elapse ev = false ->
  draggingRef (chart (step w ev)) = true /\
  displayData (chart (step w ev)) = displayData (chart w) /\
  pendingDataRef (chart (step w ev)) =
    match ev with NewData d => Some d | _ => pendingDataRef (chart w) end.
Proof.
  intros Hdrag Hev. destruct ev as [d | next | h |]; try discriminate; cbn [step].
  - unfold dataEffect. cbn zeta. rewrite Hdrag. cbn. done.
  - unfold handleBrushChange.
    destruct (next_startIndex next), (next_endIndex next); cbn; done.
  - unfold brushEffect. destruct (clampBrush _ _ _); done.
Qed.

Lemma run_interacting evs w :
  draggingRef (chart w) = true ->
  forallb (fun ev => negb (is_elapse ev)) evs = true ->
  draggingRef (chart (run evs w)) = true /\
  displayData (chart (run evs w)) = displayData (chart w) /\
  pendingDataRef (chart (run evs w)) =
    match lastData evs with Some d => Some d | None => pendingDataRef (chart w) end.
Proof.
  intros Hdrag.
  induction evs as [| ev evs IH] using rev_ind; intros Hevs.
  - done.
  - rewrite forallb_app in Hevs. apply andb_true_iff in Hevs as [Hevs Hev].
    cbn in Hev. rewrite andb_true_r in Hev. apply negb_true_iff in Hev.
    destruct (IH Hevs) as (IHdrag & IHdisplay & IHpending).
    rewrite run_snoc, lastData_snoc.
    destruct (step_interacting (run evs w) ev IHdrag Hev) as (H1 & H2 & H3).
    split; [exact H1 |]. split; [congruence |].
    rewrite H3. destruct ev; try done; discriminate.
Qed.

(** C1, freeze invariant: from a state in which the chart is dragging,
    along any trace of data arrivals, further drags and effect runs in
    which no timeout elapses, the chart stays dragging, [displayData] is
    what it was, and the pending buffer holds the most recent arrival of
    the trace (what it held before when nothing arrived). *)
Theorem freeze_invariant evs w :
  draggingRef (chart w) = true ->
  forallb (fun ev => negb (is_elapse ev)) evs = true ->
  let w' := run evs w in
  draggingRef (chart w') = true /\
  displayData (chart w') = displayData (chart w) /\
  pendingDataRef (chart w') =
    match lastData evs with Some d => Some d | None => pendingDataRef (chart w) end.
Proof. intros Hdrag Hevs. by apply run_interacting. Qed.

Lemma freeze_invariant_witness :
  draggingRef (chart draggedChart) = true /\
  forallb (fun ev => negb (is_elapse ev)) arrivals = true /\
  displayData (chart (run arrivals draggedChart)) = scenarioData /\
  pendingDataRef (chart (run arrivals draggedChart)) = Some [sample 3 40; sample 4 50].
Proof.
  split; [reflexivity |]. split; [reflexivity |].
  apply (freeze_invariant arrivals draggedChart); reflexivity.
Defined.

Lemma existsb_eqb_In h hs : existsb (Nat.eqb h) hs = true <-> In h hs.
Proof.
  rewrite existsb_exists. split.
  - intros (x & Hx & Heq). apply Nat.eqb_eq in Heq. by subst.
  - intros Hin. exists h. split; [done | apply Nat.eqb_refl].
Qed.

Lemma elapse_settles w h :
  In h (timeouts w) ->
  draggingRef (chart (elapse h w)) = false /\
  dragging (elapse h w) = false /\
  displayData (chart (elapse h w)) =
    match pendingDataRef (chart w) with
    | Some pending => pending
    | None => displayData (chart w)
    end /\
  pendingDataRef (chart (elapse h w)) = None.
Proof.
  intros Hin. unfold elapse.
  rewrite (proj2 (existsb_eqb_In h (timeouts w)) Hin).
  unfold settle. cbn [chart dragging].
  destruct (pendingDataRef (chart w)) eqn:Hpending; cbn; rewrite ?Hpending; done.
Qed.

(** C2, settle application: when a scheduled timeout elapses, the chart's
    dragging flag and the shared one are cleared, [displayData] becomes the
    pending buffer (it is unchanged when the buffer is empty), and the
    buffer is emptied. *)
Theorem settle_application w h :
  In h (timeouts w) ->
  let w' := elapse h w in
  draggingRef (chart w') = false /\
  dragging w' = false /\
  displayData (chart w') =
    match pendingDataRef (chart w) with
    | Some pending => pending
    | None => displayData (chart w)
    end /\
  pendingDataRef (chart w') = None.
Proof.
  intros Hin. by apply elapse_settles.
Qed.

Lemma settle_application_witness :
  In 1%nat (timeouts (run arrivals draggedChart)) /\
  displayData (chart (elapse 1 (run arrivals draggedChart)))
    = [sample 3 40; sample 4 50] /\
  pendingDataRef (chart (elapse 1 (run arrivals draggedChart))) = None.
Proof.
  split; [left; reflexivity |].
  pose proof (settle_application (run arrivals draggedChart) 1%nat
                ltac:(left; reflexivity)) as (_ & _ & Hdisplay & Hpending).
  split; [exact Hdisplay | exact Hpending].
Defined.

(** The timeout the chart holds while it drags is scheduled, so it will
    elapse. *)
Lemma drag_timer_scheduled evs next s e w :
  next_startIndex next = Some s -> next_endIndex next = Some e ->
  forallb (fun ev => negb (is_elapse ev)) evs = true ->
  let w' := run (Drag next :: evs) w in
  exists h, dragTimerRef (chart w') = Some h /\ In h (timeouts w').
Proof.
  intros Hs He. cbn zeta.
  induction evs as [| ev evs IH] using rev_ind; intros Hevs.
  - cbn. unfold handleBrushChange. rewrite Hs, He. cbn. eauto.
  - rewrite forallb_app in Hevs. apply andb_true_iff in Hevs as [Hevs Hev].
    cbn in Hev. rewrite andb_true_r in Hev. apply negb_true_iff in Hev.
    destruct (IH Hevs) as (h & Hh & Hin).
    change (Drag next :: evs ++ [ev]) with ((Drag next :: evs) ++ [ev]).
    rewrite run_snoc. set (v := run (Drag next :: evs) w) in *.
    destruct ev as [d | next' | h' |]; try discriminate; cbn [step].
    + exists h. unfold dataEffect. destruct (draggingRef (chart v)); cbn; done.
    + unfold handleBrushChange.
      destruct (next_startIndex next'), (next_endIndex next'); cbn; eauto.
    + exists h. unfold brushEffect. destruct (clampBrush _ _ _); cbn; done.
Qed.

(** X4, a whole gesture: a drag, then arrivals and further drags, then the
    timeout of the last drag.  The chart ends idle, displaying the last
    arrival, its buffer empty. *)
Lemma gesture_then_settle evs next s e d w :
  next_startIndex next = Some s -> next_endIndex next = Some e ->
  forallb (fun ev => negb (is_elapse ev)) evs = true ->
  lastData evs = Some d ->
  let w' := run (Drag next :: evs) w in
  exists h, dragTimerRef (chart w') = Some h /\
    draggingRef (chart (elapse h w')) = false /\
    displayData (chart (elapse h w')) = d /\
    pendingDataRef (chart (elapse h w')) = None.
Proof.
  intros Hs He Hevs Hlast. cbn zeta.
  destruct (drag_timer_scheduled evs next s e w Hs He Hevs) as (h & Hh & Hin).
  exists h. split; [exact Hh |].
  destruct (elapse_settles _ h Hin) as (H1 & _ & H3 & H4).
  split; [exact H1 |]. split; [| exact H4].
  rewrite H3. change (run (Drag next :: evs) w) with (run evs (step w (Drag next))).
  assert (draggingRef (chart (step w (Drag next))) = true) as Hdrag.
  { cbn. unfold handleBrushChange. by rewrite Hs, He. }
  destruct (run_interacting evs _ Hdrag Hevs) as (_ & _ & Hpending).
  by rewrite Hpending, Hlast.
Qed.

(** A drag clears the timeout the chart holds before it schedules the
    next one, so no step leaves two of them scheduled. *)
Lemma one_timeout_step w ev : one_timeout w -> one_timeout (step w ev).
Proof.
  intros Hinv. destruct ev as [d | next | h |]; cbn [step].
  - unfold dataEffect. destruct (draggingRef (chart w)); exact Hinv.
  - unfold handleBrushChange.
    destruct (next_startIndex next), (next_endIndex next); try exact Hinv.
    right. exists (nextTimeout w). cbn [timeouts chart dragTimerRef]. split; [| done].
    destruct Hinv as [Hnone | (h & Hone & Hh)].
    + rewrite Hnone. by destruct (dragTimerRef (chart w)).
    + rewrite Hh, Hone. cbn. by rewrite Nat.eqb_refl.
  - unfold elapse. destruct (existsb (Nat.eqb h) (timeouts w)) eqn:Hin; [| exact Hinv].
    left. destruct Hinv as [Hnone | (h' & Hone & Hh)].
    + by rewrite Hnone in Hin.
    + rewrite Hone in Hin. cbn in Hin. rewrite orb_false_r in Hin.
      apply Nat.eqb_eq in Hin as ->. cbn [settle timeouts]. rewrite Hone.
      cbn. by rewrite Nat.eqb_refl.
  - unfold brushEffect. destruct (clampBrush _ _ _); exact Hinv.
Qed.

(** Along every run from the first render at most one timeout is
    scheduled, the one of the last drag. *)
Lemma one_timeout_run evs initialBrush data :
  one_timeout (run evs (mount initialBrush data)).
Proof.
  induction evs as [| ev evs IH] using rev_ind.
  - by left.
  - rewrite run_snoc. by apply one_timeout_step.
Qed.

End Session.

(** *** Series statistics *)

Section Statistics.

(** The values a line's statistics are computed over are the finite
    numbers found under its key, in the order of the samples. *)
Lemma lineValues_finiteValues line (visible : list (gmap string value)) :
  lineValues line visible = map Fin (finiteValues (dataKey line) visible).
Proof.
  unfold lineValues, finiteValues.
  induction visible as [| item visible IH]; [done |].
  cbn [map List.filter omap list_omap]. unfold finiteValue at 1.
  destruct (item !! dataKey line) as [[[| | | q] | s] |]; cbn; by rewrite ?IH.
Qed.






(** The [reduce] that sums the values. *)
Lemma fold_add_Fin (qs : list Q) (a : Q) :
  fold_left add (map Fin qs) (Fin a) = Fin (fold_left Qplus qs a).
Proof. revert a. induction qs as [| q qs IH]; intros a; [done | apply IH]. Qed.

Lemma lineStat_values visible line :
  exists mx mn av,
    lineStat visible line =
      {| key := dataKey line; stat_label := label line; stat_color := color line;
         max := mx; min := mn; avg := av |} /\
    match finiteValues (dataKey line) visible with
    | [] => mx = None /\ mn = None /\ av = None
    | q :: qs =>
        mx = Some (Math_max (map Fin (q :: qs))) /\
        mn = Some (Math_min (map Fin (q :: qs))) /\
        av = Some (Fin (Qsum (q :: qs) / inject_Z (Z.of_nat (length (q :: qs)))))
    end.
Proof.
  unfold lineStat. rewrite lineValues_finiteValues.
  destruct (finiteValues (dataKey line) visible) as [| q qs].
  - cbn. by eexists _, _, _.
  - rewrite length_map. cbn [length Nat.eqb].
    eexists _, _, _. split; [reflexivity |]. split; [done |]. split; [done |].
    f_equal. change (ofZ 0) with (Fin 0). rewrite fold_add_Fin.
    rewrite div_Fin_ofZ by lia. reflexivity.
Qed.

End Statistics.

(** *** Series statistics in binary64 *)

Section Statistics64.










Lemma lineValues_length line (visible : list (gmap string value)) :
  length (lineValues line visible) = length (finiteValues (dataKey line) visible).
Proof. by rewrite lineValues_finiteValues, length_map. Qed.



Lemma lineStat64_values maxArguments (visible : list (gmap string value)) line :
  let qs := finiteValues (dataKey line) visible in
  (1 <= length qs <= maxArguments)%nat ->
  Binary64.lineStat maxArguments visible line =
    Some {| key := dataKey line; stat_label := label line; stat_color := color line;
            max := Some (Math_max (map Fin qs));
            min := Some (Math_min (map Fin qs));
            avg := Some (Binary64.div (fold_left Binary64.add (map Fin qs) (ofZ 0))
                                      (ofZ (Z.of_nat (length qs)))) |}.
Proof.
  cbn zeta. intros Hn. unfold Binary64.lineStat.
  rewrite lineValues_length, lineValues_finiteValues.
  destruct (Nat.eqb_spec (length (finiteValues (dataKey line) visible)) 0); [lia |].
  destruct (Nat.leb_spec (length (finiteValues (dataKey line) visible)) maxArguments); [| lia].
  reflexivity.
Qed.



End Statistics64.

(** *** The visible slice *)

Section VisibleSlice.

Lemma Qtrunc_nonneg q : (0 <= q)%Q -> Qtrunc q = Qfloor q.
Proof.
  intros Hq. destruct q as [n d]. unfold Qtrunc, Qfloor. cbn [Qnum Qden].
  unfold Qle in Hq. cbn in Hq. apply Z.quot_div_nonneg; lia.
Qed.

Lemma Qfloor_range q L : (0 <= q)%Q -> (q <= inject_Z L)%Q -> 0 <= Qfloor q <= L.
Proof.
  intros H0 HL. split.
  - pose proof (Qfloor_resp_le 0 q H0) as H. by change (Qfloor 0) with 0 in H.
  - pose proof (Qfloor_resp_le q (inject_Z L) HL) as H. by rewrite Qfloor_Z in H.
Qed.

Lemma Qfloor_succ q : Qfloor (q + inject_Z 1) = Qfloor q + 1.
Proof.
  pose proof (Qfloor_le q). pose proof (Qlt_floor q) as Hlt.
  rewrite inject_Z_plus in Hlt.
  apply Qfloor_unique; rewrite !inject_Z_plus; q_consts; lra.
Qed.

Lemma visible_start L x :
  0 <= L -> isNaN x = false ->
  exists q, Math_max [ofZ 0; Math_min [ofZ L; x]] = Fin q /\
    (0 <= q <= inject_Z L)%Q /\
    (forall a, x = ofZ a -> q = inject_Z (Z.max 0 (Z.min L a))).
Proof.
  intros HL Hx.
  assert (0 <= inject_Z L)%Q as HLq
    by (change 0%Q with (inject_Z 0); rewrite <- Zle_Qle; lia).
  destruct x as [| | | q]; try discriminate.
  - exists (inject_Z L). unfold Math_max, Math_min. cbn [fold_left].
    change (min2 (min2 Infinity (ofZ L)) Infinity) with (ofZ L).
    change (max2 NegInfinity (ofZ 0)) with (ofZ 0). rewrite max2_ofZ.
    rewrite Z.max_r by lia.
    split; [done |]. split; [lra | discriminate].
  - exists (inject_Z 0). split; [reflexivity |]. split; [q_consts; lra | discriminate].
  - unfold Math_max, Math_min. cbn [fold_left].
    change (min2 Infinity (ofZ L)) with (ofZ L).
    change (max2 NegInfinity (ofZ 0)) with (ofZ 0).
    destruct (Qle_bool (inject_Z L) q) eqn:HLe.
    + exists (inject_Z L).
      unfold min2, le, ofZ. rewrite HLe. apply Qle_bool_iff in HLe.
      fold (ofZ 0). fold (ofZ L). rewrite max2_ofZ. rewrite Z.max_r by lia.
      split; [done |]. split; [lra |].
      intros a [= ->]. rewrite <- Zle_Qle in HLe. f_equal. lia.
    + unfold min2, le, ofZ. rewrite HLe.
      apply not_true_iff_false in HLe. rewrite Qle_bool_iff in HLe.
      unfold max2, le.
      destruct (Qle_bool (inject_Z 0) q) eqn:H0q.
      * exists q. apply Qle_bool_iff in H0q. split; [done |]. split; [q_consts; lra |].
        intros a [= ->]. rewrite <- Zle_Qle in HLe, H0q. f_equal. lia.
      * exists (inject_Z 0). apply not_true_iff_false in H0q. rewrite Qle_bool_iff in H0q.
        split; [done |]. split; [q_consts; lra |].
        intros a [= ->]. rewrite <- Zle_Qle in HLe, H0q. f_equal. lia.
Qed.

Lemma visible_end L s x :
  (0 <= s <= inject_Z L)%Q -> isNaN x = false ->
  exists q, Math_max [Fin s; Math_min [ofZ L; x]] = Fin q /\
    (s <= q <= inject_Z L)%Q /\
    (forall a b, s = inject_Z a -> x = ofZ b -> q = inject_Z (Z.max a (Z.min L b))).
Proof.
  intros Hs Hx. destruct x as [| | | q]; try discriminate.
  - unfold Math_max, Math_min. cbn [fold_left].
    change (min2 (min2 Infinity (ofZ L)) Infinity) with (ofZ L).
    change (max2 NegInfinity (Fin s)) with (Fin s).
    unfold max2, le, ofZ. rewrite (proj2 (Qle_bool_iff _ _) (proj2 Hs)).
    exists (inject_Z L). split; [done |]. split; [lra | discriminate].
  - exists s. split; [reflexivity |]. split; [lra | discriminate].
  - unfold Math_max, Math_min. cbn [fold_left].
    change (min2 Infinity (ofZ L)) with (ofZ L).
    change (max2 NegInfinity (Fin s)) with (Fin s).
    destruct (Qle_bool (inject_Z L) q) eqn:HLq.
    + apply Qle_bool_iff in HLq.
      unfold min2, le, ofZ. rewrite (proj2 (Qle_bool_iff _ _) HLq).
      unfold max2, le. rewrite (proj2 (Qle_bool_iff _ _) (proj2 Hs)).
      exists (inject_Z L). split; [done |]. split; [lra |].
      intros a b -> [= ->]. rewrite <- !Zle_Qle in *. f_equal. lia.
    + unfold min2, le, ofZ. rewrite HLq.
      apply not_true_iff_false in HLq. rewrite Qle_bool_iff in HLq.
      unfold max2, le.
      destruct (Qle_bool s q) eqn:Hsq.
      * exists q. apply Qle_bool_iff in Hsq. split; [done |]. split; [lra |].
        intros a b -> [= ->]. rewrite <- !Zle_Qle in *. f_equal. lia.
      * exists s. apply not_true_iff_false in Hsq. rewrite Qle_bool_iff in Hsq.
        split; [done |]. split; [lra |].
        intros a b -> [= ->]. rewrite <- !Zle_Qle in *. f_equal. lia.
Qed.

Lemma slice_bound_inside len q :
  (0 <= q)%Q -> (q <= inject_Z len)%Q -> slice_bound len (Fin q) = Qfloor q.
Proof.
  intros H0 Hlen. cbn [slice_bound]. rewrite Qtrunc_nonneg by done.
  destruct (Qfloor_range q len H0 Hlen) as [Hlo Hhi].
  destruct (Z.ltb_spec (Qfloor q) 0); lia.
Qed.

(** The visible slice for indices that are not [NaN]: the samples from
    position [s] to position [e], the clamped integer parts of the
    indices. *)
Lemma visibleData_slice (d : list (gmap string value)) r :
  d <> [] -> isNaN (startIndex r) = false -> isNaN (endIndex r) = false ->
  exists s e : nat,
    (s <= e < length d)%nat /\
    visibleData d r = take (e - s + 1) (drop s d) /\
    (forall a b, startIndex r = ofZ a -> endIndex r = ofZ b ->
       Z.of_nat s = Z.max 0 (Z.min (Z.of_nat (length d) - 1) a) /\
       Z.of_nat e = Z.max (Z.of_nat s) (Z.min (Z.of_nat (length d) - 1) b)).
Proof.
  intros Hd Hs He. unfold visibleData.
  destruct (Nat.eqb_spec (length d) 0) as [Hlen | Hlen].
  { destruct d; [done | discriminate]. }
  set (L := Z.of_nat (length d) - 1). assert (0 <= L) as HL by lia.
  cbn zeta.
  destruct (visible_start L (startIndex r) HL Hs) as (qs & -> & Hqs & Hsint).
  destruct (visible_end L qs (endIndex r) Hqs He) as (qe & -> & Hqe & Heint).
  change (add (Fin qe) (ofZ 1)) with (Fin (qe + inject_Z 1)).
  unfold slice.
  assert (inject_Z (Z.of_nat (length d)) == inject_Z L + 1)%Q as HlenQ.
  { change 1%Q with (inject_Z 1). rewrite <- inject_Z_plus.
    apply inject_Z_injective. lia. }
  rewrite (slice_bound_inside _ qs) by lra.
  rewrite (slice_bound_inside _ (qe + inject_Z 1)) by (q_consts; lra).
  rewrite Qfloor_succ.
  destruct (Qfloor_range qs L ltac:(lra) ltac:(lra)) as [Hs0 HsL].
  destruct (Qfloor_range qe L ltac:(lra) ltac:(lra)) as [He0 HeL].
  pose proof (Qfloor_resp_le qs qe ltac:(lra)) as Hse.
  exists (Z.to_nat (Qfloor qs)), (Z.to_nat (Qfloor qe)).
  split; [lia |]. split; [f_equal; lia |].
  intros a b Ha Hb. specialize (Hsint a Ha). subst qs.
  specialize (Heint _ b eq_refl Hb). subst qe.
  rewrite !Qfloor_Z in *. rewrite !Z2Nat.id by lia. done.
Qed.

(** C10, as stated, fails: a viewport of [NaN] gives the indices [NaN],
    and the slice of three samples is then empty. *)
Lemma nan_indices_empty_slice :
  scenarioData <> [] /\
  visibleData scenarioData
    (brushIndexRange {| start := NaN; end_ := NaN |} (length scenarioData)) = [].
Proof. split; [discriminate | reflexivity]. Qed.

(** C10 (amended), the visible slice: for a non-empty [displayData] and
    indices that are not [NaN] (inverted, out of range or infinite ones
    included), [visibleData] is the contiguous slice from [s] to [e] with
    [0 <= s <= e <= len - 1], hence not empty; for integer indices [s] is
    the start index clamped into [[0, len - 1]] and [e] the larger of [s]
    and the clamped end index. *)
Theorem visible_slice (d : list (gmap string value)) r :
  d <> [] -> isNaN (startIndex r) = false -> isNaN (endIndex r) = false ->
  exists s e : nat,
    (s <= e < length d)%nat /\
    visibleData d r = take (e - s + 1) (drop s d) /\
    visibleData d r <> [] /\
    (forall a b, startIndex r = ofZ a -> endIndex r = ofZ b ->
       Z.of_nat s = Z.max 0 (Z.min (Z.of_nat (length d) - 1) a) /\
       Z.of_nat e = Z.max (Z.of_nat s) (Z.min (Z.of_nat (length d) - 1) b)).
Proof.
  intros Hd Hs He.
  destruct (visibleData_slice d r Hd Hs He) as (s & e & Hse & Hslice & Hint).
  exists s, e. split; [exact Hse |]. split; [exact Hslice |]. split; [| exact Hint].
  intros Hnil. apply (f_equal length) in Hnil.
  rewrite Hslice, length_take, length_drop in Hnil. cbn in Hnil. lia.
Qed.

Lemma visible_slice_witness :
  scenarioData <> [] /\
  isNaN (startIndex invertedRange) = false /\ isNaN (endIndex invertedRange) = false /\
  exists s e : nat,
    (s <= e < length scenarioData)%nat /\
    visibleData scenarioData invertedRange = take (e - s + 1) (drop s scenarioData).
Proof.
  split; [discriminate |]. split; [reflexivity |]. split; [reflexivity |].
  destruct (visible_slice scenarioData invertedRange
              ltac:(discriminate) eq_refl eq_refl) as (s & e & Hse & Hslice & _).
  exists s, e. split; [exact Hse | exact Hslice].
Defined.

End VisibleSlice.

(** *** Formatting *)

Section Formatting.

Lemma decimals_string_of_uint u : decimals (NilEmpty.string_of_uint u) = None.
Proof. induction u; cbn; done. Qed.

Lemma decimals_digits n : decimals (digits n) = None.
Proof.
  unfold digits, NilZero.string_of_uint.
  destruct (N.to_uint (Z.to_N n)) eqn:Hu; try done;
    rewrite <- Hu; apply decimals_string_of_uint.
Qed.

Lemma decimals_zeros n : decimals (zeros n) = None.
Proof. induction n; cbn; done. Qed.

Lemma decimals_append s1 s2 :
  decimals s1 = None -> decimals (s1 +:+ s2) = decimals s2.
Proof.
  induction s1 as [| c s1 IH]; intros Hs1; [done |].
  change (String c s1 +:+ s2) with (String c (s1 +:+ s2)).
  cbn [decimals] in *. destruct (Ascii.eqb c "."); [discriminate | by apply IH].
Qed.

Lemma decimals_substring s : forall n m,
  decimals s = None -> decimals (substring n m s) = None.
Proof.
  induction s as [| c s IH]; intros n m Hs.
  - destruct n, m; done.
  - cbn in Hs. destruct (Ascii.eqb c ".") eqn:Hc; [discriminate |].
    destruct n as [| n]; [destruct m as [| m] |]; cbn; rewrite ?Hc; auto.
Qed.

Lemma length_substring s : forall n m,
  (n + m <= String.length s)%nat -> String.length (substring n m s) = m.
Proof.
  induction s as [| c s IH]; intros n m Hlen; cbn in Hlen.
  - destruct n, m; cbn; lia.
  - destruct n as [| n]; [destruct m as [| m] |]; cbn; [done | |].
    + f_equal. apply IH. lia.
    + apply IH. lia.
Qed.

Lemma length_zeros n : String.length (zeros n) = n.
Proof. induction n; cbn; congruence. Qed.

Lemma string_length_app s1 s2 :
  String.length (s1 +:+ s2) = (String.length s1 + String.length s2)%nat.
Proof.
  induction s1 as [| c s1 IH]; [done |].
  change (String c s1 +:+ s2) with (String c (s1 +:+ s2)). cbn. by rewrite IH.
Qed.

(** In fixed notation a string has no point for 0 fraction digits and
    exactly [f] characters after its point otherwise. *)
Lemma decimals_fixed_digits f x :
  decimals (fixed_digits f x) = if Nat.eqb f 0 then None else Some f.
Proof.
  unfold fixed_digits. cbn zeta.
  set (m := digits _). destruct (Nat.eqb_spec f 0) as [-> | Hf].
  - apply decimals_digits.
  - set (m' := if (String.length m <=? f)%nat then _ else m).
    assert (decimals m' = None) as Hm'.
    { unfold m'. destruct (_ <=? _)%nat; [| apply decimals_digits].
      rewrite decimals_append by apply decimals_zeros. apply decimals_digits. }
    assert (f + 1 <= String.length m')%nat as Hlen.
    { unfold m'. destruct (Nat.leb_spec (String.length m) f).
      - rewrite string_length_app, length_zeros. lia.
      - lia. }
    rewrite decimals_append by (by apply decimals_substring).
    change ("." +:+ ?b) with (String "." b). cbn [decimals].
    change (Ascii.eqb "." ".") with true. cbn iota.
    f_equal. apply length_substring. lia.
Qed.

Lemma decimals_toFixed ts q f :
  (Qabs q < inject_Z (10 ^ 21))%Q ->
  decimals (toFixed ts (Fin q) f) = if Nat.eqb f 0 then None else Some f.
Proof.
  intros Hq. unfold toFixed. cbn zeta.
  destruct (Qle_bool (inject_Z (10 ^ 21)) (Qabs q)) eqn:Hbig.
  { apply Qle_bool_iff in Hbig. lra. }
  rewrite decimals_append; [apply decimals_fixed_digits |].
  by destruct (Qle_bool 0 q).
Qed.

(** Which [toFixed] call formats a value. *)
Lemma formatNumber_rule ts v :
  isNaN v = false ->
  formatNumber ts (Some v) =
    toFixed ts v (if ge (Math_abs v) (ofZ 100) then 0 else 1)%nat.
Proof. intros Hv. unfold formatNumber. rewrite Hv. by destruct (ge _ _). Qed.

Lemma decimals_formatNumber ts q :
  (Qabs q < inject_Z (10 ^ 21))%Q ->
  decimals (formatNumber ts (Some (Fin q))) =
    if Qle_bool 100 (Qabs q) then None else Some 1%nat.
Proof.
  intros Hq. rewrite formatNumber_rule by done.
  change (ge (Math_abs (Fin q)) (ofZ 100)) with (Qle_bool 100 (Qabs q)).
  destruct (Qle_bool 100 (Qabs q)); by rewrite decimals_toFixed.
Qed.

(** The scenario's statistics, whatever number of arguments a call takes
    from three on. *)
Lemma scenario_stats maxArguments :
  (3 <= maxArguments)%nat ->
  Binary64.stats maxArguments [fpsLine]
      (visibleData scenarioData (Binary64.brushIndexRange fullViewport (length scenarioData))) =
    Some [{| key := "fps"; stat_label := "FPS"; stat_color := "red";
             max := Some (ofZ 60); min := Some (ofZ 10);
             avg := Some (Binary64.rnd64 (100 # 3)) |}].
Proof.
  intros Hmax.
  assert (visibleData scenarioData
            (Binary64.brushIndexRange fullViewport (length scenarioData)) = scenarioData)
    as -> by (vm_compute; reflexivity).
  unfold Binary64.stats. cbn [mapM].
  rewrite lineStat64_values
    by (change (length (finiteValues (dataKey fpsLine) scenarioData)) with 3%nat; lia).
  vm_compute. reflexivity.
Qed.

(** C9, as stated, fails.  On its scenario the statistics 60 and 10 are
    formatted with one decimal, as ["60.0"] and ["10.0"].  And from
    [10^21] on a value is not formatted with zero decimal places:
    [1.5e21] gives ["1.5e+21"]. *)
Lemma scenario_formats_one_decimal :
  ~ (forall ts : Q -> string,
       option_map
         (map (fun st =>
                 (formatNumber ts (max st), formatNumber ts (avg st), formatNumber ts (min st))))
         (Binary64.stats 3 [fpsLine]
            (visibleData scenarioData
               (Binary64.brushIndexRange fullViewport (length scenarioData))))
       = Some [("60", "33.3", "10")]) /\
  formatNumber Binary64.NumberToString (Some (Fin (inject_Z (15 * 10 ^ 20)))) = "1.5e+21" /\
  decimals (formatNumber Binary64.NumberToString (Some (Fin (inject_Z (15 * 10 ^ 20)))))
    = Some 5%nat.
Proof.
  split; [| split].
  - intros H. specialize (H (fun _ => EmptyString)).
    rewrite scenario_stats in H by lia. vm_compute in H. discriminate.
  - vm_compute. reflexivity.
  - vm_compute. reflexivity.
Qed.

(** C9 (amended), display formatting: [null] and [NaN] format as an em
    dash; a value [v] with [|v| < 10^21] is formatted without decimal
    point when [|v| >= 100] and with one digit after the point otherwise.
    For the series [{t:0,fps:10},{t:1,fps:60},{t:2,fps:30}] under the
    viewport [{start:0,end:100}] the visible window is the three samples,
    the [fps] statistics are max 60, min 10 and, for avg, the binary64
    number nearest to 100/3, and they format as ["60.0"], ["33.3"] and
    ["10.0"]. *)
Theorem display_formatting (ts : Q -> string) (maxArguments : nat) :
  (3 <= maxArguments)%nat ->
  formatNumber ts None = "—" /\
  formatNumber ts (Some NaN) = "—" /\
  (forall q, (Qabs q < inject_Z (10 ^ 21))%Q ->
     decimals (formatNumber ts (Some (Fin q))) =
       if Qle_bool 100 (Qabs q) then None else Some 1%nat) /\
  let visible :=
    visibleData scenarioData
      (Binary64.brushIndexRange fullViewport (length scenarioData)) in
  visible = scenarioData /\
  exists st a,
    Binary64.stats maxArguments [fpsLine] visible = Some [st] /\
    max st = Some (ofZ 60) /\ min st = Some (ofZ 10) /\
    avg st = Some (Fin a) /\ Fin a = Binary64.rnd64 (100 # 3) /\
    (Qabs (a - (100 # 3)) <= 1 # 10 ^ 14)%Q /\
    formatNumber ts (max st) = "60.0" /\
    formatNumber ts (avg st) = "33.3" /\
    formatNumber ts (min st) = "10.0".
Proof.
  intros Hmax.
  split; [reflexivity |]. split; [reflexivity |].
  split; [apply decimals_formatNumber |].
  cbn zeta. split; [by vm_compute |].
  rewrite scenario_stats by exact Hmax.
  eexists _, _. split; [reflexivity |]. cbn [max min avg].
  split; [reflexivity |]. split; [reflexivity |].
  split; [vm_compute; reflexivity |].
  split; [vm_compute; reflexivity |].
  split; [vm_compute; discriminate |].
  repeat split; vm_compute; reflexivity.
Qed.

Lemma display_formatting_witness :
  (3 <= 1000)%nat /\
  (Qabs 250 < inject_Z (10 ^ 21))%Q /\
  decimals (formatNumber Binary64.NumberToString (Some (Fin 250))) = None.
Proof.
  split; [lia |]. split; [reflexivity |].
  destruct (display_formatting Binary64.NumberToString 1000 ltac:(lia))
    as (_ & _ & Hshape & _).
  exact (Hshape 250%Q eq_refl).
Defined.

End Formatting.

(** ** Further properties *)

Import More.

(** *** The session, beyond the claims *)

Section SessionMore.

Lemma step_idle w ev :
  draggingRef (chart w) = false -> pendingDataRef (chart w) = None ->
  starts_drag ev = false ->
  draggingRef (chart (step w ev)) = false /\
  pendingDataRef (chart (step w ev)) = None /\
  displayData (chart (step w ev)) =
    match ev with NewData d => d | _ => displayData (chart w) end.
Proof.
  intros Hidle Hpending Hev. destruct ev as [d | next | h |]; cbn [step].
  - unfold dataEffect. cbn zeta. rewrite Hidle. cbn. done.
  - unfold handleBrushChange. cbn in Hev.
    destruct (next_startIndex next), (next_endIndex next); try discriminate; done.
  - unfold elapse. destruct (existsb _ _); [| done].
    unfold settle. cbn [chart]. rewrite Hpending. cbn. done.
  - unfold brushEffect. destruct (clampBrush _ _ _); done.
Qed.

(** X1, idle pass-through: from an idle chart with an empty buffer, along
    any trace in which no drag carries both indices (arrivals, effect
    runs, timeouts, drags that miss an index), the chart stays idle, its
    buffer stays empty and [displayData] is the last arrival (what it was
    when nothing arrived). *)
Theorem idle_passthrough evs w :
  draggingRef (chart w) = false -> pendingDataRef (chart w) = None ->
  forallb (fun ev => negb (starts_drag ev)) evs = true ->
  draggingRef (chart (run evs w)) = false /\
  pendingDataRef (chart (run evs w)) = None /\
  displayData (chart (run evs w)) =
    match lastData evs with Some d => d | None => displayData (chart w) end.
Proof.
  intros Hidle Hpending.
  induction evs as [| ev evs IH] using rev_ind; intros Hevs.
  - done.
  - rewrite forallb_app in Hevs. apply andb_true_iff in Hevs as [Hevs Hev].
    cbn in Hev. rewrite andb_true_r in Hev. apply negb_true_iff in Hev.
    destruct (IH Hevs) as (IHidle & IHpending & IHdisplay).
    rewrite run_snoc, lastData_snoc.
    destruct (step_idle (run evs w) ev IHidle IHpending Hev) as (H1 & H2 & H3).
    split; [exact H1 |]. split; [exact H2 |].
    rewrite H3. destruct ev; try done.
Qed.

Lemma step_pending_only_dragging w ev :
  (draggingRef (chart w) = false -> pendingDataRef (chart w) = None) ->
  draggingRef (chart (step w ev)) = false -> pendingDataRef (chart (step w ev)) = None.
Proof.
  intros Hinv. destruct ev as [d | next | h |]; cbn [step].
  - unfold dataEffect. cbn zeta. destruct (draggingRef (chart w)) eqn:Hd; cbn.
    + discriminate.
    + auto.
  - unfold handleBrushChange.
    destruct (next_startIndex next), (next_endIndex next); cbn; auto; discriminate.
  - unfold elapse. destruct (existsb _ _); [| exact Hinv].
    unfold settle. cbn [chart]. destruct (pendingDataRef (chart w)) eqn:Hp; cbn; auto.
  - unfold brushEffect. destruct (clampBrush _ _ _); exact Hinv.
Qed.

(** X2, the buffer is used only while dragging: in every state reached
    from the first render, a chart that is not dragging has an empty
    pending buffer. *)
Theorem pending_only_while_dragging evs initialBrush data :
  draggingRef (chart (run evs (mount initialBrush data))) = false ->
  pendingDataRef (chart (run evs (mount initialBrush data))) = None.
Proof.
  induction evs as [| ev evs IH] using rev_ind.
  - done.
  - rewrite run_snoc. by apply step_pending_only_dragging.
Qed.

(** X3, debounce: in every state reached from the first render at most one
    timeout is scheduled, the one of the last drag; the elapsing of any
    other handle (one a later drag has cleared) changes nothing. *)
Theorem debounce_single_timeout evs initialBrush data h :
  let w := run evs (mount initialBrush data) in
  one_timeout w /\
  (dragTimerRef (chart w) <> Some h -> elapse h w = w).
Proof.
  cbn zeta. pose proof (one_timeout_run evs initialBrush data) as Hone.
  split; [exact Hone |]. intros Hh. unfold elapse.
  destruct Hone as [Hnone | (h' & Hone & Hh')].
  - by rewrite Hnone.
  - rewrite Hone. cbn. destruct (Nat.eqb_spec h h') as [-> | Hne]; [| done].
    congruence.
Qed.

Lemma idle_passthrough_witness :
  draggingRef (chart (mount None scenarioData)) = false /\
  pendingDataRef (chart (mount None scenarioData)) = None /\
  forallb (fun ev => negb (starts_drag ev)) idleTrace = true /\
  displayData (chart (run idleTrace (mount None scenarioData)))
    = [sample 3 40; sample 4 50].
Proof.
  split; [reflexivity |]. split; [reflexivity |]. split; [reflexivity |].
  destruct (idle_passthrough idleTrace (mount None scenarioData)
              eq_refl eq_refl eq_refl) as (_ & _ & Hdisplay).
  exact Hdisplay.
Defined.

Lemma pending_only_while_dragging_witness :
  draggingRef (chart (run (gestureTrace ++ [Elapse 1]) (mount None scenarioData)))
    = false /\
  pendingDataRef (chart (run (gestureTrace ++ [Elapse 1]) (mount None scenarioData)))
    = None.
Proof.
  split; [reflexivity |].
  apply (pending_only_while_dragging (gestureTrace ++ [Elapse 1]) None scenarioData).
  reflexivity.
Defined.

Lemma debounce_single_timeout_witness :
  dragTimerRef (chart (run [Drag firstDrag; Drag firstDrag] (mount None scenarioData)))
    <> Some 1%nat /\
  elapse 1 (run [Drag firstDrag; Drag firstDrag] (mount None scenarioData))
    = run [Drag firstDrag; Drag firstDrag] (mount None scenarioData).
Proof.
  assert (dragTimerRef
            (chart (run [Drag firstDrag; Drag firstDrag] (mount None scenarioData)))
          <> Some 1%nat) as Hstale by (vm_compute; discriminate).
  split; [exact Hstale |].
  destruct (debounce_single_timeout [Drag firstDrag; Drag firstDrag] None scenarioData 1)
    as (_ & Hignored).
  exact (Hignored Hstale).
Defined.

Lemma gesture_then_settle_witness :
  next_startIndex firstDrag = Some (ofZ 0) /\
  next_endIndex firstDrag = Some (ofZ 1) /\
  forallb (fun ev => negb (is_elapse ev)) arrivals = true /\
  lastData arrivals = Some [sample 3 40; sample 4 50] /\
  exists h,
    dragTimerRef (chart (run (Drag firstDrag :: arrivals) (mount None scenarioData)))
      = Some h /\
    displayData
      (chart (elapse h (run (Drag firstDrag :: arrivals) (mount None scenarioData))))
      = [sample 3 40; sample 4 50].
Proof.
  split; [reflexivity |]. split; [reflexivity |]. split; [reflexivity |].
  split; [reflexivity |].
  destruct (gesture_then_settle arrivals firstDrag (ofZ 0) (ofZ 1)
              [sample 3 40; sample 4 50] (mount None scenarioData)
              eq_refl eq_refl eq_refl eq_refl) as (h & Hh & _ & Hdisplay & _).
  exists h. split; [exact Hh | exact Hdisplay].
Defined.

End SessionMore.

(** *** The window, beyond the claims *)

Section WindowMore.

Lemma le_not_NaN a b : le a b = true -> isNaN a = false /\ isNaN b = false.
Proof. destruct a, b; try discriminate; done. Qed.

Lemma le_trans a b c : le a b = true -> le b c = true -> le a c = true.
Proof.
  destruct a as [| | | p], b as [| | | q], c as [| | | r]; try discriminate; try done.
  cbn [le]. rewrite !Qle_bool_iff. apply Qle_trans.
Qed.

Lemma toIndexZ_0 m : 0 <= m -> toIndexZ m (ofZ 0) = 0.
Proof.
  intros Hm. cbn [toIndexZ ofZ].
  rewrite (Qfloor_half _ 0) by (by apply scaled_0). lia.
Qed.

Lemma toIndexZ_100 m : 0 <= m -> toIndexZ m (ofZ 100) = m.
Proof.
  intros Hm. cbn [toIndexZ ofZ].
  rewrite (Qfloor_half _ m) by (by apply scaled_100). lia.
Qed.

(** The index range as integers, for a viewport without [NaN] over at
    least one sample. *)
Lemma brushIndexRange_toIndexZ b len :
  (1 <= len)%nat -> isNaN (start b) = false -> isNaN (end_ b) = false ->
  brushIndexRange b len =
    {| startIndex := ofZ (toIndexZ (Z.of_nat len - 1) (start b));
       endIndex := ofZ (toIndexZ (Z.of_nat len - 1) (end_ b)) |}.
Proof.
  intros Hlen Hs He. destruct (decide (len = 1%nat)) as [-> | Hne].
  - rewrite brushIndexRange_short by lia.
    pose proof (toIndexZ_range 0 (start b) ltac:(lia)).
    pose proof (toIndexZ_range 0 (end_ b) ltac:(lia)).
    cbn [Z.of_nat Z.sub Z.pos_sub Pos.of_succ_nat]. change (Z.of_nat 1 - 1) with 0.
    f_equal; f_equal; lia.
  - rewrite brushIndexRange_long by lia. by rewrite !toIndex_ofZ by (done || lia).
Qed.

Lemma window_of b (d : list (gmap string value)) :
  d <> [] -> le (start b) (end_ b) = true ->
  let m := Z.of_nat (length d) - 1 in
  let s := toIndexZ m (start b) in
  let e := toIndexZ m (end_ b) in
  0 <= s /\ s <= e /\ e <= m /\
  visibleData d (brushIndexRange b (length d)) =
    take (Z.to_nat (e - s + 1)) (drop (Z.to_nat s) d).
Proof.
  intros Hd Hle. cbn zeta.
  assert (1 <= length d)%nat as Hlen by (destruct d; [done | cbn; lia]).
  destruct (le_not_NaN _ _ Hle) as [Hs He].
  set (m := Z.of_nat (length d) - 1).
  pose proof (toIndexZ_range m (start b) ltac:(lia)) as Hrs.
  pose proof (toIndexZ_range m (end_ b) ltac:(lia)) as Hre.
  pose proof (toIndexZ_mono m _ _ ltac:(lia) Hle) as Hmono.
  split; [lia |]. split; [lia |]. split; [lia |].
  rewrite (brushIndexRange_toIndexZ b (length d) Hlen Hs He). fold m.
  destruct (visibleData_slice d
              {| startIndex := ofZ (toIndexZ m (start b));
                 endIndex := ofZ (toIndexZ m (end_ b)) |} Hd eq_refl eq_refl)
    as (s' & e' & Hse & Hslice & Hint).
  destruct (Hint _ _ eq_refl eq_refl) as [Hs' He']. fold m in Hs', He'.
  rewrite Hslice. f_equal; [| f_equal]; lia.
Qed.


(** X8, a viewport that covers [[0, 100]] shows the whole series, whatever
    its length: [start <= 0] and [100 <= end], the default viewport and
    infinite bounds included. *)
Theorem covering_viewport_shows_all b (d : list (gmap string value)) :
  le (start b) (ofZ 0) = true -> le (ofZ 100) (end_ b) = true ->
  visibleData d (brushIndexRange b (length d)) = d.
Proof.
  intros Hs He. destruct d as [| x d]; [done |].
  set (l := x :: d).
  assert (le (start b) (end_ b) = true) as Hle.
  { apply (le_trans _ (ofZ 0)); [done |]. by apply (le_trans _ (ofZ 100)). }
  destruct (window_of b l ltac:(done) Hle) as (H0 & Hse & Hm & Hslice).
  set (m := Z.of_nat (length l) - 1) in *.
  assert (0 <= m) as Hm0 by (unfold m, l; cbn [length]; lia).
  pose proof (toIndexZ_mono m _ _ Hm0 Hs) as H1. rewrite toIndexZ_0 in H1 by done.
  pose proof (toIndexZ_mono m _ _ Hm0 He) as H2. rewrite toIndexZ_100 in H2 by done.
  rewrite Hslice.
  replace (toIndexZ m (start b)) with 0 by lia.
  replace (toIndexZ m (end_ b)) with m by lia.
  cbn [Z.to_nat drop]. apply take_ge. unfold m. lia.
Qed.





Lemma covering_viewport_shows_all_witness :
  le (start wideViewport) (ofZ 0) = true /\
  le (ofZ 100) (end_ wideViewport) = true /\
  visibleData scenarioData (brushIndexRange wideViewport (length scenarioData))
    = scenarioData.
Proof.
  split; [reflexivity |]. split; [reflexivity |].
  apply (covering_viewport_shows_all wideViewport scenarioData); reflexivity.
Defined.



End WindowMore.

(** *** The window in binary64 and the exact window *)

Section Accuracy.
Import Binary64.

(** Rounding to the nearest integer moves a number by one half at most. *)
Lemma roundHalfEven_near x :
  (x - (1 # 2) <= inject_Z (roundHalfEven x) <= x + (1 # 2))%Q.
Proof.
  unfold roundHalfEven. pose proof (Qfloor_le x) as Hlo. pose proof (Qlt_floor x) as Hhi.
  rewrite inject_Z_plus in Hhi. change (inject_Z 1) with 1%Q in Hhi.
  destruct (Qcompare_spec (x - inject_Z (Qfloor x)) (1 # 2)) as [H | H | H].
  - destruct (Z.even (Qfloor x)); rewrite ?inject_Z_plus; change (inject_Z 1) with 1%Q; lra.
  - lra.
  - rewrite inject_Z_plus. change (inject_Z 1) with 1%Q. lra.
Qed.

(** Below [2^k] the binary64 numbers are [2^(k-53)] apart at most: rounding
    moves a number by half of that at most. *)
Lemma nearest_near a k :
  (0 < a)%Q -> (a < pow2 k)%Q -> -1021 <= k ->
  (a - pow2 (k - 54) <= nearest a <= a + pow2 (k - 54))%Q.
Proof.
  intros Ha Hk Hmin. unfold nearest. set (e := exponent a).
  destruct (floorlog2_spec a Ha) as [Hlo _].
  assert (floorlog2 a < k) as Hl.
  { destruct (Z_lt_le_dec (floorlog2 a) k) as [H | H]; [exact H |].
    pose proof (pow2_le k (floorlog2 a) H). lra. }
  assert (e <= k - 53) as He by (unfold e, exponent; lia).
  pose proof (pow2_le (e - 1) (k - 54) ltac:(lia)) as Hulp.
  pose proof (pow2_pos e) as Hp.
  pose proof (pow2_plus (e - 1) 1) as Hhalf. replace (e - 1 + 1) with e in Hhalf by lia.
  change (pow2 1) with 2%Q in Hhalf.
  pose proof (roundHalfEven_near (a / pow2 e)) as Hm.
  set (m := inject_Z (roundHalfEven (a / pow2 e))) in *.
  assert (a / pow2 e * pow2 e == a)%Q as Hx by (field; lra).
  set (x := (a / pow2 e)%Q) in *.
  nra.
Qed.

(** The same for [rnd64], which does not overflow below [2^1023]. *)
Lemma rnd64_near a k :
  (0 <= a)%Q -> (a < pow2 k)%Q -> -1021 <= k <= 1023 ->
  exists v, rnd64 a = Fin v /\ (0 <= v)%Q /\
    (a - pow2 (k - 54) <= v <= a + pow2 (k - 54))%Q.
Proof.
  intros Ha Hk Hrange. pose proof (pow2_pos (k - 54)) as Hd.
  unfold rnd64. pose proof (Qnum_pos a) as Hs. destruct (Qnum a).
  - exists 0%Q. split; [reflexivity |]. split; lra.
  - pose proof (nearest_near a k Hs Hk ltac:(lia)) as Hn.
    unfold rnd64_pos. cbn zeta.
    destruct (Qle_bool (pow2 1024) (nearest a)) eqn:Ho.
    + apply Qle_bool_iff in Ho. exfalso.
      pose proof (pow2_le k 1023 ltac:(lia)).
      pose proof (pow2_le (k - 54) 1023 ltac:(lia)).
      pose proof (pow2_plus 1023 1) as H2. change (1023 + 1) with 1024 in H2.
      change (pow2 1) with 2%Q in H2. lra.
    + exists (Qred (nearest a)). split; [reflexivity |]. rewrite Qred_correct.
      split; [by apply nearest_nonneg | exact Hn].
  - exfalso. lra.
Qed.


Lemma pow2_m53 : (pow2 (-53) == 1 # 9007199254740992)%Q.
Proof. reflexivity. Qed.

Lemma pow2_m47 : (pow2 (-47) == 1 # 140737488355328)%Q.
Proof. reflexivity. Qed.

Lemma pow2_m21 : (pow2 (-21) == 1 # 2097152)%Q.
Proof. reflexivity. Qed.

Lemma pow2_7 : (pow2 7 == 128)%Q.
Proof. reflexivity. Qed.

Lemma pow2_33 : (pow2 33 == 8589934592)%Q.
Proof. reflexivity. Qed.

(** [Math.max(0, Math.min(100, x))] on a finite number. *)
Lemma clamp_100_Fin x :
  exists p, Math_max [ofZ 0; Math_min [ofZ 100; Fin x]] = Fin p /\
    (p == Qmax 0 (Qmin 100 x))%Q.
Proof.
  unfold Math_max, Math_min. cbn [fold_left].
  change (max2 NegInfinity (ofZ 0)) with (Fin 0).
  change (min2 Infinity (ofZ 100)) with (Fin 100).
  destruct (min2_Fin 100 x) as (r & -> & Hr).
  destruct (max2_Fin 0 r) as (p & -> & Hp).
  exists p. split; [reflexivity |]. q_minmax.
Qed.

(** A drag to the index [i] sets a percentage within [2^-45] of
    [100 * i / m]. *)
Lemma toPct64_near m i :
  1 <= m -> 0 <= i <= m ->
  exists p, Binary64.toPct (ofZ m) (ofZ i) = Fin p /\ (0 <= p <= 100)%Q /\
    (Qabs (p - 100 * (inject_Z i / inject_Z m)) <= 1 # 35184372088832)%Q.
Proof.
  intros Hm Hi. unfold Binary64.toPct, Binary64.mul, Binary64.div.
  change (JS.div (ofZ i) (ofZ m)) with (JS.div (Fin (inject_Z i)) (ofZ m)).
  rewrite div_Fin_ofZ by done. cbn [Binary64.round].
  pose proof (Qdiv_range i m ltac:(lia) ltac:(lia)) as Hq.
  set (q := (inject_Z i / inject_Z m)%Q) in *.
  destruct (rnd64_near q 1 ltac:(lra) ltac:(change (pow2 1) with 2%Q; lra) ltac:(lia))
    as (v1 & -> & Hv0 & Hv1).
  change (1 - 54) with (-53) in Hv1. rewrite pow2_m53 in Hv1.
  cbn [JS.mul ofZ Binary64.round]. change (inject_Z 100) with 100%Q.
  assert (v1 * 100 < pow2 7)%Q as H7 by (rewrite pow2_7; lra).
  destruct (rnd64_near (v1 * 100) 7 ltac:(lra) H7 ltac:(lia)) as (v2 & -> & Hv20 & Hv2).
  change (7 - 54) with (-47) in Hv2. rewrite pow2_m47 in Hv2.
  destruct (clamp_100_Fin v2) as (p & -> & Hp). exists p.
  split; [reflexivity |].
  assert (0 <= p <= 100)%Q as Hrange by (clear Hv1 Hv2; q_minmax).
  split; [exact Hrange |].
  apply Qabs_Qle_condition. clear H7. q_minmax.
Qed.


(** The round trip in binary64: an index dragged to comes back as
    itself. *)
Lemma roundtrip_index64 m i :
  1 <= m < 2 ^ 32 -> 0 <= i <= m ->
  Binary64.toIndex (ofZ m) (Binary64.toPct (ofZ m) (ofZ i)) = ofZ i.
Proof.
  intros Hm Hi.
  destruct (toPct64_near m i ltac:(lia) Hi) as (p & -> & Hp & Hnear).
  apply Qabs_Qle_condition in Hnear.
  rewrite toIndex64_ofZ by (done || lia). f_equal.
  rewrite scaled64_Fin. change (inject_Z 100) with 100%Q.
  pose proof (Qdiv_range i m ltac:(lia) ltac:(lia)) as Hq.
  assert (0 < inject_Z m)%Q as Hmpos by (rewrite <- (Zlt_Qlt 0); lia).
  assert (inject_Z m <= 4294967296)%Q as Hmax.
  { change 4294967296%Q with (inject_Z 4294967296). rewrite <- Zle_Qle. lia. }
  assert (inject_Z i / inject_Z m * inject_Z m == inject_Z i)%Q as Hqm by (field; lra).
  set (q := (inject_Z i / inject_Z m)%Q) in *.
  assert (p / 100 * 100 == p)%Q as Hx by (field; lra).
  set (x := (p / 100)%Q) in *.
  destruct (rnd64_near x 1 ltac:(lra) ltac:(change (pow2 1) with 2%Q; lra) ltac:(lia))
    as (v3 & -> & Hv30 & Hv3).
  change (1 - 54) with (-53) in Hv3. rewrite pow2_m53 in Hv3.
  cbn [JS.mul ofZ Binary64.round].
  assert (v3 * inject_Z m < pow2 33)%Q as H33 by (rewrite pow2_33; nra).
  destruct (rnd64_near (v3 * inject_Z m) 33 ltac:(nra) H33 ltac:(lia))
    as (v4 & -> & Hv40 & Hv4).
  change (33 - 54) with (-21) in Hv4. rewrite pow2_m21 in Hv4.
  cbn [nearestIndex].
  assert (Qfloor (v4 + (1 # 2)) = i) as ->; [| lia].
  apply Qfloor_unique; rewrite ?inject_Z_plus; change (inject_Z 1) with 1%Q; nra.
Qed.


(** Two numbers less than 1 apart round to integers at most 1 apart. *)
Lemma Qfloor_near x y :
  (x - 1 <= y <= x + 1)%Q -> Z.abs (Qfloor x - Qfloor y) <= 1.
Proof.
  intros H.
  pose proof (Qfloor_le x) as Hx1. pose proof (Qlt_floor x) as Hx2.
  pose proof (Qfloor_le y) as Hy1. pose proof (Qlt_floor y) as Hy2.
  rewrite inject_Z_plus in Hx2, Hy2. change (inject_Z 1) with 1%Q in Hx2, Hy2.
  assert (inject_Z (Qfloor x) < inject_Z (Qfloor y + 2))%Q as H1
    by (rewrite inject_Z_plus; change (inject_Z 2) with 2%Q; lra).
  assert (inject_Z (Qfloor y) < inject_Z (Qfloor x + 2))%Q as H2
    by (rewrite inject_Z_plus; change (inject_Z 2) with 2%Q; lra).
  rewrite <- Zlt_Qlt in H1, H2. lia.
Qed.

(** The index computed in binary64 and the index computed exactly are at
    most 1 apart. *)
Lemma toIndex64_near_exact m pct :
  1 <= m < 2 ^ 32 ->
  Z.abs (nearestIndex m (scaled64 m pct) - toIndexZ m pct) <= 1.
Proof.
  intros Hm. destruct pct as [| | |p].
  - change (scaled64 m NaN) with NaN. cbn [nearestIndex toIndexZ]. lia.
  - unfold scaled64, Binary64.mul, Binary64.div.
    rewrite div_Infinity_ofZ by lia. cbn [Binary64.round].
    rewrite mul_Infinity_ofZ by lia. cbn [Binary64.round nearestIndex toIndexZ]. lia.
  - unfold scaled64, Binary64.mul, Binary64.div.
    rewrite div_NegInfinity_ofZ by lia. cbn [Binary64.round].
    rewrite mul_NegInfinity_ofZ by lia. cbn [Binary64.round nearestIndex toIndexZ]. lia.
  - pose proof (nearestIndex_range m (scaled64 m (Fin p)) ltac:(lia)) as Hr.
    pose proof (toIndexZ_range m (Fin p) ltac:(lia)) as Hr'.
    destruct (Qlt_le_dec p 0) as [Hneg | Hpos].
    { assert (le (scaled64 m (Fin p)) (ofZ 0) = true) as H.
      { rewrite <- (scaled64_0 m 0) by reflexivity.
        apply scaled64_mono; [lia |]. apply Qle_bool_iff. lra. }
      apply (nearestIndex_mono m) in H; [| lia]. rewrite nearestIndex_ofZ in H.
      pose proof (toIndexZ_mono m (Fin p) (Fin 0) ltac:(lia)
                    ltac:(apply Qle_bool_iff; lra)) as H'.
      rewrite toIndexZ_0 in H' by lia. lia. }
    destruct (Qlt_le_dec 100 p) as [Hbig | Hsmall].
    { assert (le (ofZ m) (scaled64 m (Fin p)) = true) as H.
      { rewrite <- (scaled64_100 m 100) by (lia || reflexivity).
        apply scaled64_mono; [lia |]. apply Qle_bool_iff. lra. }
      apply (nearestIndex_mono m) in H; [| lia]. rewrite nearestIndex_ofZ in H.
      pose proof (toIndexZ_mono m (Fin 100) (Fin p) ltac:(lia)
                    ltac:(apply Qle_bool_iff; lra)) as H'.
      rewrite toIndexZ_100 in H' by lia. lia. }
    rewrite scaled64_Fin. change (inject_Z 100) with 100%Q.
    assert (0 < inject_Z m)%Q as Hmpos by (rewrite <- (Zlt_Qlt 0); lia).
    assert (inject_Z m <= 4294967296)%Q as Hmax.
    { change 4294967296%Q with (inject_Z 4294967296). rewrite <- Zle_Qle. lia. }
    assert (p / 100 * 100 == p)%Q as Hx by (field; lra).
    cbn [toIndexZ]. unfold scaled. change (inject_Z 100) with 100%Q.
    set (x := (p / 100)%Q) in *.
    destruct (rnd64_near x 1 ltac:(lra) ltac:(change (pow2 1) with 2%Q; lra) ltac:(lia))
      as (v1 & -> & Hv10 & Hv1).
    change (1 - 54) with (-53) in Hv1. rewrite pow2_m53 in Hv1.
    cbn [JS.mul ofZ Binary64.round].
    assert (v1 * inject_Z m < pow2 33)%Q as H33 by (rewrite pow2_33; nra).
    destruct (rnd64_near (v1 * inject_Z m) 33 ltac:(nra) H33 ltac:(lia))
      as (v4 & -> & Hv40 & Hv4).
    change (33 - 54) with (-21) in Hv4. rewrite pow2_m21 in Hv4.
    cbn [nearestIndex].
    pose proof (Qfloor_near (v4 + (1 # 2)) (x * inject_Z m + (1 # 2)) ltac:(nra)). lia.
Qed.

End Accuracy.

Section EngineWindow.

(** X19, the exact window is the engine's up to one index: for a series of
    up to [2^32] samples and a viewport without [NaN], each index computed
    in binary64 is at most 1 apart from the index computed with exact
    arithmetic. *)
Theorem binary64_index_near_exact b len :
  Z.of_nat len <= 2 ^ 32 ->
  isNaN (start b) = false -> isNaN (end_ b) = false ->
  exists s e s' e' : Z,
    Binary64.brushIndexRange b len = {| startIndex := ofZ s; endIndex := ofZ e |} /\
    brushIndexRange b len = {| startIndex := ofZ s'; endIndex := ofZ e' |} /\
    Z.abs (s - s') <= 1 /\ Z.abs (e - e') <= 1.
Proof.
  intros Hlen Hs He. destruct (Nat.leb_spec len 1) as [Hshort | Hlong].
  - exists 0, 0, 0, 0. rewrite brushIndexRange64_short, brushIndexRange_short by done.
    repeat split; lia.
  - set (m := Z.of_nat len - 1). assert (1 <= m < 2 ^ 32) as Hm by lia.
    exists (nearestIndex m (scaled64 m (start b))), (nearestIndex m (scaled64 m (end_ b))),
      (toIndexZ m (start b)), (toIndexZ m (end_ b)).
    rewrite brushIndexRange64_long, brushIndexRange_long by lia.
    rewrite !toIndex64_ofZ, !toIndex_ofZ by (done || lia).
    split; [reflexivity |]. split; [reflexivity |].
    split; by apply toIndex64_near_exact.
Qed.

Lemma binary64_index_near_exact_witness :
  Z.of_nat 26 <= 2 ^ 32 /\
  isNaN (start tailViewport) = false /\ isNaN (end_ tailViewport) = false /\
  exists s e s' e' : Z,
    Binary64.brushIndexRange tailViewport 26 = {| startIndex := ofZ s; endIndex := ofZ e |} /\
    brushIndexRange tailViewport 26 = {| startIndex := ofZ s'; endIndex := ofZ e' |} /\
    Z.abs (s - s') <= 1 /\ Z.abs (e - e') <= 1.
Proof.
  split; [lia |]. split; [reflexivity |]. split; [reflexivity |].
  apply (binary64_index_near_exact tailViewport 26); [lia | reflexivity | reflexivity].
Defined.

(** X20, the round trip in the engine's arithmetic: for a series of 2 to
    [2^32] samples, indices of [[0, len - 1]] pushed to the viewport by a
    drag and mapped back by [brushIndexRange] come back as themselves. *)
Theorem round_trip_binary64 len i k :
  (2 <= len)%nat -> Z.of_nat len <= 2 ^ 32 ->
  0 <= i <= Z.of_nat len - 1 -> 0 <= k <= Z.of_nat len - 1 ->
  Binary64.brushIndexRange (Binary64.brushOfIndices len (ofZ i) (ofZ k)) len
    = {| startIndex := ofZ i; endIndex := ofZ k |}.
Proof.
  intros Hlen Hmax Hi Hk.
  rewrite brushIndexRange64_long by done.
  unfold Binary64.brushOfIndices. cbn [start end_]. rewrite Math_max_pair.
  rewrite Z.max_l by lia.
  by rewrite !roundtrip_index64 by lia.
Qed.

Lemma round_trip_binary64_witness :
  (2 <= 4)%nat /\ Z.of_nat 4 <= 2 ^ 32 /\
  0 <= 1 <= Z.of_nat 4 - 1 /\ 0 <= 2 <= Z.of_nat 4 - 1 /\
  Binary64.brushIndexRange (Binary64.brushOfIndices 4 (ofZ 1) (ofZ 2)) 4
    = {| startIndex := ofZ 1; endIndex := ofZ 2 |}.
Proof.
  split; [lia |]. split; [lia |]. split; [lia |]. split; [lia |].
  apply (round_trip_binary64 4 1 2); lia.
Defined.

End EngineWindow.

(** *** Drags and the viewport *)

Section DragMore.





End DragMore.

(** *** Degenerate series *)

Section DegenerateSeries.

Lemma visibleData_empty r : visibleData [] r = [].
Proof. reflexivity. Qed.

(** X10, the empty series: whatever the viewport, [NaN] included, the
    indices are 0, nothing is visible and the statistics of every line are
    [null]. *)
Theorem empty_series b line :
  brushIndexRange b 0 = {| startIndex := ofZ 0; endIndex := ofZ 0 |} /\
  visibleData [] (brushIndexRange b 0) = [] /\
  max (shownStat b [] line) = None /\
  min (shownStat b [] line) = None /\
  avg (shownStat b [] line) = None.
Proof.
  split; [apply brushIndexRange_short; lia |]. done.
Qed.

(** X11, the single-sample series: whatever the viewport, [NaN] included,
    the indices are 0 and the sample is visible; a line whose key holds
    the finite number [q] has [max = min = q] and an average equal to [q],
    a line without a finite number there has [null] statistics. *)
Theorem single_sample b (x : gmap string value) line :
  brushIndexRange b 1 = {| startIndex := ofZ 0; endIndex := ofZ 0 |} /\
  visibleData [x] (brushIndexRange b 1) = [x] /\
  (forall q, x !! dataKey line = Some (VNum (Fin q)) ->
     max (shownStat b [x] line) = Some (Fin q) /\
     min (shownStat b [x] line) = Some (Fin q) /\
     exists a, avg (shownStat b [x] line) = Some (Fin a) /\ (a == q)%Q) /\
  (finiteValue (dataKey line) x = None ->
     max (shownStat b [x] line) = None /\
     min (shownStat b [x] line) = None /\
     avg (shownStat b [x] line) = None).
Proof.
  assert (brushIndexRange b 1 = {| startIndex := ofZ 0; endIndex := ofZ 0 |}) as Hr
    by (apply brushIndexRange_short; lia).
  assert (visibleData [x] (brushIndexRange b 1) = [x]) as Hv by (by rewrite Hr).
  split; [exact Hr |]. split; [exact Hv |].
  unfold shownStat. cbn [length]. rewrite Hv.
  destruct (lineStat_values [x] line) as (mx & mn & av & -> & Hst).
  cbn [max min avg]. unfold finiteValues in Hst. cbn [omap list_omap] in Hst.
  split.
  - intros q Hq. unfold finiteValue in Hst. rewrite Hq in Hst.
    destruct Hst as (-> & -> & ->).
    split; [reflexivity |]. split; [reflexivity |].
    eexists. split; [reflexivity |]. unfold Qsum. cbn [fold_left length].
    change (inject_Z (Z.of_nat 1)) with 1%Q. field.
  - intros Hnone. rewrite Hnone in Hst. exact Hst.
Qed.

Lemma single_sample_witness :
  sample 0 10 !! dataKey fpsLine = Some (VNum (Fin 10)) /\
  max (shownStat middleViewport [sample 0 10] fpsLine) = Some (Fin 10) /\
  min (shownStat middleViewport [sample 0 10] fpsLine) = Some (Fin 10).
Proof.
  assert (sample 0 10 !! dataKey fpsLine = Some (VNum (Fin 10))) as Hq
    by (vm_compute; reflexivity).
  split; [exact Hq |].
  destruct (single_sample middleViewport (sample 0 10) fpsLine) as (_ & _ & Hstat & _).
  destruct (Hstat 10%Q Hq) as (Hmax & Hmin & _).
  split; [exact Hmax | exact Hmin].
Defined.

End DegenerateSeries.

(** *** The [config] object *)

Section ConfigProps.
Import ChartConfig.

Lemma config_snoc lines line : config (lines ++ [line]) = assign (config lines) line.
Proof. unfold config. by rewrite fold_left_app. Qed.

Lemma lastLine_snoc k lines line :
  lastLine k (lines ++ [line]) =
    if String.eqb (dataKey line) k then Some line else lastLine k lines.
Proof.
  unfold lastLine. rewrite List.filter_app. cbn [List.filter].
  destruct (String.eqb (dataKey line) k).
  - apply last_snoc.
  - by rewrite app_nil_r.
Qed.

Lemma config_lastLine lines k :
  k <> "__proto__"%string -> config lines !! k = entryOf <$> lastLine k lines.
Proof.
  intros Hk. induction lines as [| line lines IH] using rev_ind; [done |].
  rewrite config_snoc, lastLine_snoc. unfold assign.
  destruct (String.eqb_spec (dataKey line) "__proto__") as [Hproto | Hproto].
  - destruct (String.eqb_spec (dataKey line) k) as [Heq | Hne]; [congruence | exact IH].
  - destruct (String.eqb_spec (dataKey line) k) as [Heq | Hne].
    + subst k. by rewrite lookup_insert_eq.
    + by rewrite lookup_insert_ne.
Qed.

Lemma config_no_proto lines : config lines !! "__proto__"%string = None.
Proof.
  induction lines as [| line lines IH] using rev_ind; [done |].
  rewrite config_snoc. unfold assign.
  destruct (String.eqb_spec (dataKey line) "__proto__") as [Hproto | Hproto]; [exact IH |].
  by rewrite lookup_insert_ne.
Qed.

(** X13, the [config] object: under a key other than ["__proto__"] it
    holds the label and colour of the last line declared with that
    [dataKey]; it has no entry for a key exactly when no line declares it;
    and it never has an own ["__proto__"] entry. *)
Theorem config_last_line_wins lines k :
  k <> "__proto__"%string ->
  config lines !! k = entryOf <$> lastLine k lines /\
  (config lines !! k = None <-> forall line, line ∈ lines -> dataKey line <> k) /\
  config lines !! "__proto__"%string = None.
Proof.
  intros Hk. split; [by apply config_lastLine |]. split; [| apply config_no_proto].
  rewrite config_lastLine by done. unfold lastLine.
  rewrite fmap_None, last_None. split.
  - intros Hnil line Hin Heq.
    assert (In line (List.filter (fun line => String.eqb (dataKey line) k) lines)) as Hf.
    { apply filter_In. split; [by apply list_elem_of_In | by apply String.eqb_eq]. }
    rewrite Hnil in Hf. destruct Hf.
  - intros Hall. destruct (List.filter _ lines) as [| line rest] eqn:Hf; [done |].
    assert (In line (List.filter (fun line => String.eqb (dataKey line) k) lines)) as Hin
      by (rewrite Hf; by left).
    apply filter_In in Hin as [Hin Heq]. apply String.eqb_eq in Heq.
    exfalso. apply (Hall line); [by apply list_elem_of_In | done].
Qed.

Lemma config_last_line_wins_witness :
  "fps"%string <> "__proto__"%string /\
  config twoLines !! "fps"%string
    = Some {| entry_label := "Frames"; entry_color := "blue" |}.
Proof.
  assert ("fps"%string <> "__proto__"%string) as Hk by discriminate.
  split; [exact Hk |].
  destruct (config_last_line_wins twoLines "fps" Hk) as (Hlookup & _).
  exact Hlookup.
Defined.

End ConfigProps.

(** *** The selection of metrics *)

Section ToggleProps.
Import MetricSelector.

Lemma MetricKey_eqb_spec a b : reflect (a = b) (MetricKey_eqb a b).
Proof. destruct a, b; constructor; congruence. Qed.

Lemma includes_In value m : includes value m = true <-> In m value.
Proof.
  unfold includes. rewrite existsb_exists. split.
  - intros (x & Hx & Heq). by destruct (MetricKey_eqb_spec m x) as [-> |].
  - intros Hin. exists m. split; [done |]. by destruct (MetricKey_eqb_spec m m).
Qed.

Lemma In_toggle value m m' :
  In m' (toggle value m) <-> (m' = m /\ ~ In m value) \/ (m' <> m /\ In m' value).
Proof.
  unfold toggle. destruct (includes value m) eqn:Hinc.
  - apply includes_In in Hinc. rewrite filter_In. split.
    + intros [Hin Hne]. right. split; [| done].
      destruct (MetricKey_eqb_spec m' m); [discriminate | done].
    + intros [[-> Hnot] | [Hne Hin]]; [done |]. split; [done |].
      by destruct (MetricKey_eqb_spec m' m).
  - assert (~ In m value) as Hnot.
    { intros Hin. apply includes_In in Hin. congruence. }
    rewrite in_app_iff. cbn [In]. split.
    + intros [Hin | [<- | []]].
      * right. split; [| done]. intros ->. done.
      * by left.
    + intros [[-> _] | [_ Hin]]; [right; by left | by left].
Qed.

Lemma includes_toggle value m m' :
  includes (toggle value m) m' =
    if MetricKey_eqb m' m then negb (includes value m) else includes value m'.
Proof.
  destruct (MetricKey_eqb_spec m' m) as [-> | Hne].
  - destruct (includes value m) eqn:Hinc; cbn [negb].
    + apply not_true_iff_false. rewrite includes_In, In_toggle.
      apply includes_In in Hinc. intros [[_ Hnot] | [Hne _]]; done.
    + apply includes_In, In_toggle. left. split; [done |].
      intros Hin. apply includes_In in Hin. congruence.
  - apply eq_true_iff_eq. rewrite !includes_In, In_toggle.
    split; [intros [[-> _] | [_ Hin]]; done | intros Hin; right; done].
Qed.

(** X14, a toggle flips one metric: after [toggle] the metric is selected
    exactly when it was not, and every other metric is selected exactly
    when it was. *)
Theorem toggle_flips_one value m m' :
  includes (toggle value m) m = negb (includes value m) /\
  (m' <> m -> includes (toggle value m) m' = includes value m').
Proof.
  rewrite !includes_toggle. split.
  - by destruct (MetricKey_eqb_spec m m).
  - intros Hne. by destruct (MetricKey_eqb_spec m' m).
Qed.

(** X15, toggling twice: a metric that was not selected is added at the
    end and removed again, which restores the array itself; in every case
    the same metrics are selected afterwards; and a selection without
    duplicates stays without duplicates. *)
Theorem toggle_twice value m :
  (includes value m = false -> toggle (toggle value m) m = value) /\
  (forall m', includes (toggle (toggle value m) m) m' = includes value m') /\
  (NoDup value -> NoDup (toggle value m)).
Proof.
  split; [| split].
  - intros Hinc. unfold toggle at 2. rewrite Hinc. unfold toggle.
    assert (includes (value ++ [m]) m = true) as ->.
    { apply includes_In, in_app_iff. right. by left. }
    rewrite List.filter_app. cbn [List.filter].
    destruct (MetricKey_eqb_spec m m); [| done]. cbn [negb]. rewrite app_nil_r.
    apply forallb_filter_id. apply forallb_forall. intros x Hx.
    destruct (MetricKey_eqb_spec x m) as [-> |]; [| done].
    apply includes_In in Hx. congruence.
  - intros m'. rewrite !includes_toggle.
    destruct (MetricKey_eqb_spec m' m) as [-> | Hne]; [| done].
    destruct (MetricKey_eqb_spec m m); [| done]. apply negb_involutive.
  - intros Hnd. unfold toggle. destruct (includes value m) eqn:Hinc.
    + by apply NoDup_ListNoDup, List.NoDup_filter, NoDup_ListNoDup.
    + apply NoDup_app. split; [done |]. split; [| apply NoDup_singleton].
      intros x Hx Hm. apply list_elem_of_singleton in Hm as ->.
      apply list_elem_of_In, includes_In in Hx. congruence.
Qed.

Lemma toggle_flips_one_witness :
  cpu <> fps /\ includes (toggle selection fps) cpu = includes selection cpu.
Proof.
  assert (cpu <> fps) as Hne by discriminate.
  split; [exact Hne |].
  destruct (toggle_flips_one selection fps cpu) as (_ & Hother).
  exact (Hother Hne).
Defined.

Lemma toggle_twice_witness :
  includes selection memory = false /\
  toggle (toggle selection memory) memory = selection.
Proof.
  split; [reflexivity |].
  destruct (toggle_twice selection memory) as (Hback & _).
  exact (Hback eq_refl).
Defined.

End ToggleProps.

(** *** Comparing versions *)

Section SemverProps.
Import UpdateCheck.

Lemma compareFrom_antisym pa pb i r :
  compareFrom pb pa i r = - compareFrom pa pb i r.
Proof.
  revert i. induction r as [| r IH]; intros i; [done |].
  cbn [compareFrom]. unfold lt.
  set (da := default (ofZ 0) (pa !! i)). set (db := default (ofZ 0) (pb !! i)).
  destruct (gt da db) eqn:Hab, (gt db da) eqn:Hba; try done.
  exfalso. destruct da as [| | | p], db as [| | | q]; try discriminate.
  cbn in Hab, Hba. apply negb_true_iff in Hab, Hba.
  apply not_true_iff_false in Hab, Hba. rewrite Qle_bool_iff in Hab, Hba. lra.
Qed.

(** Past the end of both arrays every segment reads 0 and the loop
    returns 0. *)
Lemma compareFrom_past pa pb i r :
  (length pa <= i)%nat -> (length pb <= i)%nat -> compareFrom pa pb i r = 0.
Proof.
  revert i. induction r as [| r IH]; intros i Ha Hb; [done |].
  cbn [compareFrom]. rewrite !lookup_ge_None_2 by done. cbn [default].
  change (gt (ofZ 0) (ofZ 0)) with false. change (lt (ofZ 0) (ofZ 0)) with false.
  apply IH; lia.
Qed.

(** More rounds than the longer array has segments change nothing. *)
Lemma compareFrom_more pa pb i r k :
  (length pa <= i + r)%nat -> (length pb <= i + r)%nat ->
  compareFrom pa pb i (r + k) = compareFrom pa pb i r.
Proof.
  revert i. induction r as [| r IH]; intros i Ha Hb.
  - cbn [Nat.add compareFrom]. apply compareFrom_past; lia.
  - cbn [Nat.add compareFrom]. rewrite IH by lia. done.
Qed.

Lemma compareParts_rounds pa pb R :
  (length pa <= R)%nat -> (length pb <= R)%nat ->
  compareParts pa pb = compareFrom pa pb 0 R.
Proof.
  intros Ha Hb. unfold compareParts.
  replace R with (Nat.max (length pa) (length pb)
                  + (R - Nat.max (length pa) (length pb)))%nat by lia.
  symmetry. apply compareFrom_more; lia.
Qed.

(** The loop reads the arrays through [pa[i] ?? 0] only. *)
Lemma compareFrom_ext pa pa' pb pb' i r :
  (forall j, default (ofZ 0) (pa !! j) = default (ofZ 0) (pa' !! j)) ->
  (forall j, default (ofZ 0) (pb !! j) = default (ofZ 0) (pb' !! j)) ->
  compareFrom pa pb i r = compareFrom pa' pb' i r.
Proof.
  intros Ha Hb. revert i. induction r as [| r IH]; intros i; [done |].
  cbn [compareFrom]. by rewrite Ha, Hb, IH.
Qed.

Lemma lookup_padded (pa : list number) k j :
  default (ofZ 0) ((pa ++ replicate k (ofZ 0)) !! j) = default (ofZ 0) (pa !! j).
Proof.
  destruct (Nat.lt_ge_cases j (length pa)) as [Hlt | Hge].
  - by rewrite lookup_app_l.
  - rewrite lookup_app_r, (lookup_ge_None_2 pa) by done. cbn [default].
    destruct (replicate k (ofZ 0) !! (j - length pa)%nat) as [x |] eqn:Hx; [| done].
    apply lookup_replicate in Hx as [-> _]. done.
Qed.

(** X18, missing segments count as 0: appending zero segments to either
    array of segments does not change the result of the comparison loop,
    so 1.2 and 1.2.0 compare equal. *)
Theorem missing_segments_count_as_zero pa pb k :
  compareParts (pa ++ replicate k (ofZ 0)) pb = compareParts pa pb /\
  compareParts pa (pb ++ replicate k (ofZ 0)) = compareParts pa pb.
Proof.
  set (R := (length pa + length pb + k)%nat).
  split.
  - rewrite (compareParts_rounds _ pb R), (compareParts_rounds pa pb R);
      rewrite ?length_app, ?length_replicate; try (unfold R; lia).
    apply compareFrom_ext; [apply lookup_padded | done].
  - rewrite (compareParts_rounds pa _ R), (compareParts_rounds pa pb R);
      rewrite ?length_app, ?length_replicate; try (unfold R; lia).
    apply compareFrom_ext; [done | apply lookup_padded].
Qed.

Lemma gt_asym a b : gt a b = true -> gt b a = false.
Proof.
  destruct a as [| | | p], b as [| | | q]; try discriminate; try reflexivity.
  unfold gt, le. intros H. apply negb_true_iff, not_true_iff_false in H.
  rewrite Qle_bool_iff in H. apply negb_false_iff, Qle_bool_iff. lra.
Qed.

(** [>] on numbers that are not [NaN] is a strict weak order. *)
Lemma gt_cases a b c :
  isNaN a = false -> isNaN b = false -> isNaN c = false ->
  (gt a b = true -> gt c b = false -> gt a c = true) /\
  (gt b c = true -> gt b a = false -> gt a c = true) /\
  (gt a b = false -> gt b c = false -> gt a c = false).
Proof.
  destruct a as [| | | p], b as [| | | q], c as [| | | r]; intros; try discriminate.
  all: unfold gt, le; cbn [negb].
  all: repeat split; intros; try discriminate; try reflexivity.
  all: repeat match goal with
       | H : negb (Qle_bool _ _) = true |- _ =>
           apply negb_true_iff, not_true_iff_false in H; rewrite Qle_bool_iff in H
       | H : negb (Qle_bool _ _) = false |- _ =>
           apply negb_false_iff in H; rewrite Qle_bool_iff in H
       end.
  all: try (apply negb_true_iff, not_true_iff_false; rewrite Qle_bool_iff; lra).
  all: try (apply negb_false_iff; rewrite Qle_bool_iff; lra).
Qed.

Lemma no_NaN_lookup pa i : no_NaN pa -> isNaN (default (ofZ 0) (pa !! i)) = false.
Proof.
  intros Hpa. destruct (pa !! i) as [x |] eqn:Hx; [| done].
  cbn [default]. by apply (Forall_lookup_1 _ _ _ _ Hpa Hx).
Qed.

Lemma compareFrom_trans pa pb pc i r :
  no_NaN pa -> no_NaN pb -> no_NaN pc ->
  0 <= compareFrom pa pb i r -> 0 <= compareFrom pb pc i r ->
  0 <= compareFrom pa pc i r /\
  (compareFrom pa pb i r = 1 \/ compareFrom pb pc i r = 1 -> compareFrom pa pc i r = 1).
Proof.
  intros Ha Hb Hc. revert i. induction r as [| r IH]; intros i.
  - cbn. intros _ _. split; [lia |]. intros [H | H]; discriminate.
  - cbn [compareFrom]. unfold lt.
    pose proof (no_NaN_lookup pa i Ha) as Hda.
    pose proof (no_NaN_lookup pb i Hb) as Hdb.
    pose proof (no_NaN_lookup pc i Hc) as Hdc.
    set (da := default (ofZ 0) (pa !! i)) in *.
    set (db := default (ofZ 0) (pb !! i)) in *.
    set (dc := default (ofZ 0) (pc !! i)) in *.
    destruct (gt_cases da db dc Hda Hdb Hdc) as (G1 & G2 & G3).
    destruct (gt_cases dc db da Hdc Hdb Hda) as (_ & _ & K3).
    destruct (gt da db) eqn:Hab.
    + intros _. destruct (gt dc db) eqn:Hcb.
      * rewrite (gt_asym _ _ Hcb). intros H; lia.
      * intros _. rewrite (G1 eq_refl eq_refl). split; [lia | done].
    + destruct (gt db da) eqn:Hba; [intros H; lia |]. intros H1.
      destruct (gt db dc) eqn:Hbc.
      * intros _. rewrite (G2 eq_refl eq_refl). split; [lia | done].
      * destruct (gt dc db) eqn:Hcb; [intros H; lia |]. intros H2.
        rewrite (G3 eq_refl eq_refl), (K3 eq_refl eq_refl).
        by apply IH.
Qed.

Section WithBuiltins.

Variable trim : string -> string.
Variable StringToNumber : string -> number.

Lemma toSegment_not_NaN n : isNaN (toSegment StringToNumber n) = false.
Proof.
  unfold toSegment. cbn zeta. destruct (StringToNumber n); cbn; try done.
  by destruct (Qeq_bool _ _).
Qed.

Lemma segments_no_NaN v : no_NaN (segments trim StringToNumber v).
Proof.
  unfold no_NaN, segments. apply Forall_forall. intros x Hx.
  apply list_elem_of_In, in_map_iff in Hx as (n & <- & _). apply toSegment_not_NaN.
Qed.

(** X16, [compareSemver] is antisymmetric: swapping the arguments negates
    the result, and a version compares equal to itself, whatever the
    strings are. *)
Theorem compareSemver_antisymmetric a b :
  compareSemver trim StringToNumber b a = - compareSemver trim StringToNumber a b /\
  compareSemver trim StringToNumber a a = 0.
Proof.
  unfold compareSemver, compareParts. split.
  - rewrite Nat.max_comm. apply compareFrom_antisym.
  - pose proof (compareFrom_antisym (segments trim StringToNumber a)
                  (segments trim StringToNumber a) 0
                  (Nat.max (length (segments trim StringToNumber a))
                           (length (segments trim StringToNumber a)))).
    lia.
Qed.

(** X17, [compareSemver] is transitive: if [a] is not older than [b] and
    [b] not older than [c], then [a] is not older than [c], and it is newer
    as soon as one of the two steps is. *)
Theorem compareSemver_transitive a b c :
  0 <= compareSemver trim StringToNumber a b ->
  0 <= compareSemver trim StringToNumber b c ->
  0 <= compareSemver trim StringToNumber a c /\
  (compareSemver trim StringToNumber a b = 1 \/ compareSemver trim StringToNumber b c = 1 ->
   compareSemver trim StringToNumber a c = 1).
Proof.
  unfold compareSemver.
  set (pa := segments trim StringToNumber a).
  set (pb := segments trim StringToNumber b).
  set (pc := segments trim StringToNumber c).
  set (R := (length pa + length pb + length pc)%nat).
  rewrite (compareParts_rounds pa pb R), (compareParts_rounds pb pc R),
          (compareParts_rounds pa pc R) by (unfold R; lia).
  apply compareFrom_trans; apply segments_no_NaN.
Qed.

End WithBuiltins.

End SemverProps.

Section SemverExamples.
Import UpdateCheck.

Lemma compareSemver_transitive_witness :
  0 <= compareSemver (fun s => s) parseDigits "v2.0" "1.10" /\
  0 <= compareSemver (fun s => s) parseDigits "1.10" "1.9" /\
  0 <= compareSemver (fun s => s) parseDigits "v2.0" "1.9".
Proof.
  assert (0 <= compareSemver (fun s => s) parseDigits "v2.0" "1.10") as Hab
    by (vm_compute; discriminate).
  assert (0 <= compareSemver (fun s => s) parseDigits "1.10" "1.9") as Hbc
    by (vm_compute; discriminate).
  split; [exact Hab |]. split; [exact Hbc |].
  destruct (compareSemver_transitive (fun s => s) parseDigits "v2.0" "1.10" "1.9"
              Hab Hbc) as (Hac & _).
  exact Hac.
Defined.

End SemverExamples.
